(** * The Lichess book of puzzles: filtering, move translation, rendering

    A shallow embedding of [src/main.py].  The script reads a table of chess
    puzzles, keeps the rows that match a rating range and a set of themes,
    plays the first move of every kept puzzle, and prints the puzzles and
    their solutions as a LaTeX document.

    Conventions of the embedding:
    - Python [str] values are [string]s of ASCII text; Python [int]s are [Z].
    - A pandas DataFrame is a list of rows, each carrying its index label
      ([idx]); a boolean Series is a list of [bool] aligned with the rows.
      The FEN and Moves columns hold text; the Themes column holds text or
      missing values.
    - Python effects are collected in the monad [Py]: the lines printed on
      standard output so far, and either a value or the exception raised.
    - The libraries the script calls are not part of it.  Each is a class
      whose fields are the operations called: [ChessRules] for python-chess,
      [Regex] for the regular expressions behind [Series.str.contains], and
      [Numbers] for the numbers of pandas and their coercion. *)

From Stdlib Require Import String Ascii List ZArith Lia Bool DecimalString.
Import ListNotations.
Open Scope string_scope.
Open Scope Z_scope.

(** ** Python strings *)

Module PyStr.

(** Line feed. *)
Definition nl : string := String (ascii_of_nat 10) "".

(** [str.isspace] on one ASCII character: tab, line feed, vertical tab, form
    feed, carriage return, the four separators 28-31, and space. *)
Definition is_space (c : ascii) : bool :=
  let k := nat_of_ascii c in
  ((9 <=? k) && (k <=? 13) || (28 <=? k) && (k <=? 32))%nat.

(** Cut [s] at every character satisfying [sep]; empty pieces are kept, so
    the result is never empty. *)
Fixpoint split_by (sep : ascii -> bool) (s : string) : list string :=
  match s with
  | EmptyString => [""]
  | String c s' =>
      if sep c then "" :: split_by sep s'
      else match split_by sep s' with
           | [] => [String c ""]
           | w :: ws => String c w :: ws
           end
  end.

(** [s.split(' ')]: cut at every single space. *)
Definition split_sp (s : string) : list string :=
  split_by (Ascii.eqb " ") s.

Definition nonempty (s : string) : bool :=
  match s with EmptyString => false | String _ _ => true end.

(** [s.split()]: cut at runs of whitespace, dropping empty pieces. *)
Definition split_ws (s : string) : list string :=
  filter nonempty (split_by is_space s).

(** [sep.join(l)]. *)
Definition join (sep : string) (l : list string) : string :=
  String.concat sep l.

(** Literal substring test: [contains s p] holds when [p] occurs in [s]. *)
Fixpoint contains (s p : string) : bool :=
  String.prefix p s ||
  match s with
  | EmptyString => false
  | String _ s' => contains s' p
  end.

(** [str(z)] for an integer. *)
Definition str_int (z : Z) : string :=
  NilZero.string_of_int (Z.to_int z).

(** [str(x)] for a value that may be [None]. *)
Definition str_opt {A : Type} (f : A -> string) (o : option A) : string :=
  match o with
  | Some a => f a
  | None => "None"
  end.

(** Several lines of text, separated by line feeds. *)
Definition lines (l : list string) : string := String.concat nl l.

(** No character of [s] satisfies [p]. *)
Fixpoint free_of (p : ascii -> bool) (s : string) : bool :=
  match s with
  | EmptyString => true
  | String c s' => negb (p c) && free_of p s'
  end.

(** The characters with a special meaning in a regular expression. *)
Definition is_meta (c : ascii) : bool :=
  contains ".^$*+?{}[]\|()" (String c "").

(** A pattern without special character stands for itself. *)
Definition plain (pat : string) : bool := free_of is_meta pat.

End PyStr.
Import PyStr.

(** ** Python effects: standard output and exceptions *)

(** The exceptions the script can raise: [ValueError] from [chess.Board] on a
    malformed position, [InvalidMoveError] from [chess.Move.from_uci],
    [AssertionError] from [Board.san] and [Board.push] on a move that starts
    from an empty square, [TypeError] from comparing a number with [None],
    and [ReError] ([re.error]) from [Series.str.contains] on a pattern that
    is no regular expression. *)
Inductive exn : Type :=
  | ValueError
  | InvalidMoveError
  | AssertionError
  | TypeError
  | ReError.

Inductive outcome (A : Type) : Type :=
  | Ok (a : A)
  | Raise (e : exn).
Arguments Ok {A} a.
Arguments Raise {A} e.

(** A computation: the lines printed, and how it ended. *)
Definition Py (A : Type) : Type := (list string * outcome A)%type.

Definition ret {A : Type} (a : A) : Py A := ([], Ok a).

Definition raise {A : Type} (e : exn) : Py A := ([], Raise e).

Definition print (line : string) : Py unit := ([line], Ok tt).

Definition bind {A B : Type} (m : Py A) (k : A -> Py B) : Py B :=
  match m with
  | (out, Raise e) => (out, Raise e)
  | (out, Ok a) => let (out', r) := k a in ((out ++ out')%list, r)
  end.

Declare Scope py_scope.
Delimit Scope py_scope with py.
Notation "x <- m ;; k" := (bind m (fun x => k))
  (at level 61, m at next level, right associativity) : py_scope.
Notation "m ;; k" := (bind m (fun _ => k))
  (at level 61, right associativity) : py_scope.
Open Scope py_scope.

(** A library call that raises [e] where the model returns [None]. *)
Definition or_raise {A : Type} (e : exn) (o : option A) : Py A :=
  match o with
  | Some a => ret a
  | None => raise e
  end.

(** A [for] loop threading an accumulator through the elements in order. *)
Fixpoint for_each {A S : Type} (body : S -> A -> Py S) (l : list A) (s : S)
  : Py S :=
  match l with
  | [] => ret s
  | a :: l' => s' <- body s a ;; for_each body l' s'
  end.

Definition stdout {A : Type} (m : Py A) : list string := fst m.
Definition result {A : Type} (m : Py A) : outcome A := snd m.

(** ** The libraries *)

(** python-chess. *)
Class ChessRules : Type := {
  board : Type;
  move : Type;
  (** [chess.Board(fen)]; [None] where it raises [ValueError]. *)
  Board : string -> option board;
  (** [chess.Move.from_uci(uci)]; [None] where it raises
      [InvalidMoveError]. *)
  from_uci : string -> option move;
  (** [board.push(move)], as the board after the move; [None] where it
      raises [AssertionError]. *)
  push : board -> move -> option board;
  (** [board.fen()]. *)
  fen : board -> string;
  (** [board.san(move)]; [None] where it raises [AssertionError]. *)
  san : board -> move -> option string;
  (** [board.turn]: [true] is [chess.WHITE]. *)
  turn : board -> bool
}.

(** The regular expressions of [Series.str.contains(pat, na=False)], which
    compiles [pat] and searches it in every value. *)
Class Regex : Type := {
  pattern : Type;
  (** [re.compile(pat)]; [None] where it raises [re.error]. *)
  re_compile : string -> option pattern;
  (** [p.search(s) is not None]. *)
  re_search : pattern -> string -> bool;
  (** A pattern without special character compiles, and is found exactly
      where it occurs. *)
  re_plain : forall pat,
    plain pat = true ->
    exists p, re_compile pat = Some p
              /\ forall s, re_search p s = contains s pat
}.

(** The numbers of pandas: the values of a numeric column other than NaN,
    and the numbers of the configuration. *)
Class Numbers : Type := {
  number : Type;
  (** A value of the Rating column as loaded. *)
  cell : Type;
  (** [pd.to_numeric(column, errors='coerce')]; [None] is NaN, the value of
      a cell whose coercion failed. *)
  to_numeric : list cell -> list (option number);
  to_numeric_length : forall column,
    length (to_numeric column) = length column;
  (** [x >= bound] and [x <= bound] on a value that is not NaN. *)
  num_ge : number -> number -> bool;
  num_le : number -> number -> bool;
  (** [bool(x)]: false for zero. *)
  num_truthy : number -> bool;
  (** [str(x)]. *)
  num_str : number -> string
}.

(** ** The puzzle table *)

(** One row, with the Rating column of type [R]: [cell] as loaded, and
    [option number] once coerced ([None] is NaN). *)
Record row_of (R : Type) : Type := mkRow {
  idx : Z;
  FEN : string;
  Rating : R;
  Themes : option string;
  Moves : string
}.
Arguments mkRow {R}.
Arguments idx {R}.
Arguments FEN {R}.
Arguments Rating {R}.
Arguments Themes {R}.
Arguments Moves {R}.

Abbreviation raw_row := (row_of cell).
Abbreviation row := (row_of (option number)).

Definition set_Rating {R R' : Type} (v : R') (r : row_of R) : row_of R' :=
  mkRow (idx r) (FEN r) v (Themes r) (Moves r).
Definition set_FEN {R : Type} (v : string) (r : row_of R) : row_of R :=
  mkRow (idx r) v (Rating r) (Themes r) (Moves r).
Definition set_Moves {R : Type} (v : string) (r : row_of R) : row_of R :=
  mkRow (idx r) (FEN r) (Rating r) (Themes r) v.

(** The options read from [config.yaml]; [None] is an absent key. *)
Record config {nums : Numbers} : Type := mkConfig {
  cfg_min_rating : option number;
  cfg_max_rating : option number;
  cfg_themes : option string;
  cfg_all_themes : option bool;
  cfg_n : option Z
}.
Arguments mkConfig {nums}.

(** A value placed in a formatted string. *)
Inductive value {nums : Numbers} : Type :=
  | VNone
  | VInt (z : Z)
  | VNumber (x : number)
  | VStr (s : string).

(** [str(v)]. *)
Definition str {nums : Numbers} (v : value) : string :=
  match v with
  | VNone => "None"
  | VInt z => str_int z
  | VNumber x => num_str x
  | VStr s => s
  end.

(** An optional value of the configuration as a value. *)
Definition of_option {nums : Numbers} {A : Type} (inj : A -> value)
  (o : option A) : value :=
  match o with
  | Some a => inj a
  | None => VNone
  end.

(** ** pandas operations *)

Module Pandas.

(** [series >= bound] and [series <= bound] on one value: a comparison with
    NaN is [False]. *)
Definition ge {nums : Numbers} (x : option number) (bound : number) : bool :=
  match x with
  | Some v => num_ge v bound
  | None => false
  end.

Definition le {nums : Numbers} (x : option number) (bound : number) : bool :=
  match x with
  | Some v => num_le v bound
  | None => false
  end.

(** [data[mask]]: the rows whose mask entry is [True], in order. *)
Definition select {A : Type} (mask : list bool) (data : list A) : list A :=
  map snd (filter fst (combine mask data)).

(** [pd.Series(True, index=data.index)]. *)
Definition all_true {A : Type} (data : list A) : list bool :=
  map (fun _ => true) data.

(** [series.str.contains(pat, na=False)] once [pat] is compiled: the
    pattern is searched in every value, and a missing value gives
    [False]. *)
Definition str_contains {re : Regex} (col : list (option string))
  (p : pattern) : list bool :=
  map (fun c => match c with
                | Some s => re_search p s
                | None => false
                end) col.

(** [mask &= other] and [mask |= other], element by element. *)
Definition mask_and (mask other : list bool) : list bool :=
  map (fun p => fst p && snd p) (combine mask other).

Definition mask_or (mask other : list bool) : list bool :=
  map (fun p => fst p || snd p) (combine mask other).

(** [data.at[label, 'FEN'] = v]: every row carrying the label is written. *)
Definition at_FEN {R : Type} (label : Z) (v : string) (data : list (row_of R))
  : list (row_of R) :=
  map (fun r => if idx r =? label then set_FEN v r else r) data.

Definition at_Moves {R : Type} (label : Z) (v : string)
  (data : list (row_of R)) : list (row_of R) :=
  map (fun r => if idx r =? label then set_Moves v r else r) data.

(** [data.iloc[:n, :]] with Python's slice rules: a negative [n] counts from
    the end. *)
Definition iloc_head {A : Type} (n : Z) (data : list A) : list A :=
  if 0 <=? n then firstn (Z.to_nat n) data
  else firstn (length data - Z.to_nat (- n)) data.

(** [str(data.shape)]. *)
Definition shape {A : Type} (data : list A) (ncols : Z) : string :=
  "(" ++ str_int (Z.of_nat (length data)) ++ ", " ++ str_int ncols ++ ")".

(** [enumerate(l, start)]. *)
Fixpoint enumerate {A : Type} (start : Z) (l : list A) : list (Z * A) :=
  match l with
  | [] => []
  | a :: l' => (start, a) :: enumerate (start + 1) l'
  end.

End Pandas.
Import Pandas.

(** Truth value of an optional number: [None] and zero are false. *)
Definition truthy {nums : Numbers} (o : option number) : bool :=
  match o with
  | Some x => num_truthy x
  | None => false
  end.

(** Truth value of an optional string: [None] and [''] are false. *)
Definition truthy_str (o : option string) : bool :=
  match o with
  | Some s => nonempty s
  | None => false
  end.

(** Truth value of an optional boolean. *)
Definition truthy_bool (o : option bool) : bool :=
  match o with
  | Some b => b
  | None => false
  end.

(** ** [filter_puzzles] *)

Section Pipeline.

Context {rules : ChessRules} {re : Regex} {nums : Numbers}.

(** Line 11: the Rating column is replaced by its coercion to numbers. *)
Definition coerce_rating (data : list raw_row) : list row :=
  map (fun p => set_Rating (snd p) (fst p))
    (combine data (to_numeric (map Rating data))).

(** Lines 13-16: the rating bounds, each behind its [if]. *)
Definition rating_stage (min_rating max_rating : option number)
  (data : list row) : list row :=
  let data :=
    match min_rating with
    | Some lo =>
        if truthy min_rating
        then select (map (fun r => ge (Rating r) lo) data) data
        else data
    | None => data
    end in
  match max_rating with
  | Some hi =>
      if truthy max_rating
      then select (map (fun r => le (Rating r) hi) data) data
      else data
  | None => data
  end.

(** Lines 24 and 28: one turn of either loop; the tag is compiled, then
    searched in the Themes column. *)
Definition theme_step (combine_masks : list bool -> list bool -> list bool)
  (data : list row) (filter_mask : list bool) (theme : string)
  : Py (list bool) :=
  p <- or_raise ReError (re_compile theme) ;;
  ret (combine_masks filter_mask (str_contains (map Themes data) p)).

(** Lines 20-28: the mask starts all [True] and is updated once per tag. *)
Definition theme_mask (tags : list string) (all_themes : bool)
  (data : list row) : Py (list bool) :=
  if all_themes then for_each (theme_step mask_and data) tags (all_true data)
  else for_each (theme_step mask_or data) tags (all_true data).

(** Lines 18-30. *)
Definition theme_stage (themes : option string) (all_themes : bool)
  (data : list row) : Py (list row) :=
  match themes with
  | Some s =>
      if truthy_str themes then
        filter_mask <- theme_mask (split_sp s) all_themes data ;;
        ret (select filter_mask data)
      else ret data
  | None => ret data
  end.

(** The diagnostic of line 40. *)
Definition skip_message (label : Z) : string :=
  "Skipping row " ++ str_int (label + 1) ++ ": Insufficient moves".

(** Lines 33-40: the body of the loop, for the row [r] yielded by
    [iterrows], acting on the table [data]. *)
Definition advance_row (data : list row) (r : row) : Py (list row) :=
  let moves := split_ws (Moves r) in
  if (2 <=? length moves)%nat then
    b <- or_raise ValueError (Board (FEN r)) ;;
    mv <- or_raise InvalidMoveError (from_uci (nth 0 moves "")) ;;
    b <- or_raise AssertionError (push b mv) ;;
    let data := at_FEN (idx r) (fen b) data in
    let data := at_Moves (idx r) (join " " (skipn 1 moves)) data in
    ret data
  else
    print (skip_message (idx r)) ;;
    ret data.

(** Lines 32-40: [iterrows] yields the rows as they were when the loop
    started; the writes go to the table. *)
Definition advance_stage (data : list row) : Py (list row) :=
  for_each advance_row data data.

(** Lines 41-44. *)
Definition cap_stage (n : option Z) (data : list row) : Py (list row) :=
  match n with
  | None => raise TypeError
  | Some n =>
      if Z.of_nat (length data) <=? n then ret data
      else ret (iloc_head n data)
  end.

Definition filter_puzzles (data : list raw_row) (themes : option string)
  (all_themes : bool) (min_rating max_rating : option number)
  (n : option Z) : Py (list row) :=
  let data := coerce_rating data in
  let data := rating_stage min_rating max_rating data in
  data <- theme_stage themes all_themes data ;;
  data <- advance_stage data ;;
  cap_stage n data.

(** ** [translate_moves] *)

(** Lines 50-53: one turn of the loop, on the pair of [proper_moves] and
    [board]. *)
Definition translate_step (st : list string * board) (uci : string)
  : Py (list string * board) :=
  let (proper_moves, b) := st in
  chess_move <- or_raise InvalidMoveError (from_uci uci) ;;
  algebraic_move <- or_raise AssertionError (san b chess_move) ;;
  b <- or_raise AssertionError (push b chess_move) ;;
  ret ((proper_moves ++ [algebraic_move])%list, b).

Definition translate_moves (moves : string) (position : string) : Py string :=
  b <- or_raise ValueError (Board position) ;;
  st <- for_each translate_step (split_sp moves) ([], b) ;;
  ret (join " " (fst st)).

(** ** [black_or_white] *)

Definition black_or_white (position : string) (answer : bool) : Py string :=
  b <- or_raise ValueError (Board position) ;;
  if answer then
    ret (if turn b then "\whitecircle" else "\blackcircle")
  else
    ret (if turn b then "" else "... ").

(** ** [generate_text] *)

(** The section heading of line 79. *)
Definition section_heading (themes n min_rating max_rating : value)
  : string :=
  "{\centering \section*{The Lichess Book of " ++ str n
  ++ " Puzzles covering " ++ str themes
  ++ " theme(s) from " ++ str min_rating
  ++ " to " ++ str max_rating ++ "}}".

(** Lines 63-78, up to the heading. *)
Definition preamble : string :=
  lines [ "";
          "\documentclass{article}";
          "\usepackage{skak}";
          "\usepackage{graphicx}";
          "\usepackage[margin=1.5cm, a4paper]{geometry}";
          "\usepackage{multicol}";
          "\usepackage{tikz}";
          "";
          "% Define the scaling factor";
          "\newcommand{\chessScaleFactor}{0.7}";
          "\newcommand{\NumberDiagramSpace}{\vspace{0.2cm}}";
          "\newcommand{\whitecircle}{\tikz\draw[black,fill=white] (0,0) circle (3pt);}";
          "\newcommand{\blackcircle}{\tikz\draw[black,fill=black] (0,0) circle (3pt);}";
          "";
          "\begin{document}";
          "";
          "" ].

(** Lines 80-82, after the heading. *)
Definition after_heading : string :=
  lines [ ""; ""; "\vspace{1cm}"; "    " ].

(** The diagram of one puzzle, shared by lines 88-96 and 100-108. *)
Definition diagram (i : Z) (circle position : string) : list string :=
  [ "\parbox[t]{0.48\textwidth}{%";
    "\centering";
    "\textbf{\#" ++ str_int i ++ "} " ++ circle ++ "\\";
    "\NumberDiagramSpace";
    "\resizebox{\chessScaleFactor\linewidth}{!}{%";
    "\newgame";
    "\fenboard{" ++ position ++ "}";
    "\showboard";
    "}" ].

(** Lines 85-119: one turn of the first loop. *)
Definition diagram_step (text : string) (p : Z * row) : Py string :=
  let (i, r) := p in
  circle <- black_or_white (FEN r) true ;;
  let text :=
    if i mod 2 =? 1 then
      text ++ lines ([ ""; "\noindent" ] ++ diagram i circle (FEN r)
                     ++ [ "}\hfill"; "            " ])%list
    else
      text ++ lines (diagram i circle (FEN r) ++ [ "}"; "            " ])%list
  in
  let text :=
    if i mod 6 =? 0 then
      text ++ lines [ ""; "\vspace{1cm}"; "\newpage"; "            " ]
    else if i mod 2 =? 0 then
      text ++ lines [ ""; "\vfill"; "            " ]
    else text
  in
  ret text.

(** Lines 125-128: one turn of the second loop. *)
Definition solution_step (text : string) (p : Z * row) : Py string :=
  let (i, r) := p in
  dots <- black_or_white (FEN r) false ;;
  sans <- translate_moves (Moves r) (FEN r) ;;
  ret (text ++ lines [ "\textbf{\#" ++ str_int i ++ "} " ++ dots ++ sans
                       ++ "\\"; ""; ""; "        " ]).

(** The parameters after [puzzles] are only formatted, whatever they are. *)
Definition generate_text (puzzles : list row)
  (themes n min_rating max_rating : value) : Py string :=
  let text :=
    preamble ++ section_heading themes n min_rating max_rating
    ++ after_heading in
  text <- for_each diagram_step (enumerate 1 puzzles) text ;;
  let text := text ++ lines [ "\newpage"; "\begin{multicols}{2}"; "    " ] in
  text <- for_each solution_step (enumerate 1 puzzles) text ;;
  let text := text ++ lines [ "\end{multicols}"; "\end{document}"; "    " ] in
  ret text.

(** ** [main] *)

(** The text written to [output.txt].  [puzzles] is the table read by
    [load_puzzles] and [ncols] its number of columns. *)
Definition main (cfg : config) (puzzles : list raw_row) (ncols : Z)
  : Py string :=
  let min_rating := cfg_min_rating cfg in
  let max_rating := cfg_max_rating cfg in
  let themes := cfg_themes cfg in
  let all_themes := cfg_all_themes cfg in
  let n := cfg_n cfg in
  print (shape puzzles ncols) ;;
  filtered_puzzles <-
    filter_puzzles puzzles themes (truthy_bool all_themes) min_rating
      max_rating n ;;
  print (shape filtered_puzzles ncols) ;;
  generate_text filtered_puzzles (of_option VStr themes)
    (of_option VNumber min_rating) (of_option VNumber max_rating)
    (of_option VInt n).

End Pipeline.

(** ** Small instances of the libraries

    The instances below stand in for the libraries where the pipeline is run
    on concrete tables.

    [PlainChess] reads and prints positions and plays plain moves: a piece
    goes from one square to another, taking what stands there, and a pawn may
    promote.  Like python-chess it refuses a move that starts from an empty
    square and checks nothing else.  It knows nothing of castling, en
    passant or check, and its algebraic notation never disambiguates. *)

Module PlainChess.

Record position : Type := mkPosition {
  (** The 64 squares in the order of the notation: a8 to h8, down to h1. *)
  squares : list (option ascii);
  white_to_move : bool;
  castling : string;
  en_passant : string;
  halfmove : Z;
  fullmove : Z
}.

(** A move: the two squares and the promotion piece, if any. *)
Definition plain_move : Type := (nat * nat * option ascii)%type.

Definition between (lo hi : nat) (c : ascii) : bool :=
  ((lo <=? nat_of_ascii c) && (nat_of_ascii c <=? hi))%nat.

Definition is_piece (c : ascii) : bool :=
  contains "pnbrqkPNBRQK" (String c "").

Definition upper (c : ascii) : ascii :=
  if between 97 122 c then ascii_of_nat (nat_of_ascii c - 32) else c.

Fixpoint parse_placement (s : string) : option (list (option ascii)) :=
  match s with
  | EmptyString => Some []
  | String c s' =>
      match parse_placement s' with
      | None => None
      | Some rest =>
          if Ascii.eqb c "/" then Some rest
          else if between 49 56 c
          then Some (repeat None (nat_of_ascii c - 48) ++ rest)%list
          else if is_piece c then Some (Some c :: rest)
          else None
      end
  end.

(** A counter of the notation: decimal digits, at least one. *)
Definition parse_count (s : string) : option Z :=
  if nonempty s then option_map Z.of_uint (NilEmpty.uint_of_string s)
  else None.

Definition parse_fen (s : string) : option position :=
  match split_ws s with
  | [pl; t; c; e; h; f] =>
      match parse_placement pl, parse_count h, parse_count f with
      | Some sq, Some h, Some f =>
          if negb (length sq =? 64)%nat then None
          else if String.eqb t "w" then Some (mkPosition sq true c e h f)
          else if String.eqb t "b" then Some (mkPosition sq false c e h f)
          else None
      | _, _, _ => None
      end
  | _ => None
  end.

(** The index of the square named by a file letter and a rank digit. *)
Definition parse_square (f r : ascii) : option nat :=
  if between 97 104 f && between 49 56 r
  then Some ((56 - nat_of_ascii r) * 8 + (nat_of_ascii f - 97))%nat
  else None.

Definition parse_uci (s : string) : option plain_move :=
  let squares_of f1 r1 f2 r2 promotion :=
    match parse_square f1 r1, parse_square f2 r2 with
    | Some a, Some b =>
        if (a =? b)%nat then None else Some (a, b, promotion)
    | _, _ => None
    end in
  match s with
  | String f1 (String r1 (String f2 (String r2 EmptyString))) =>
      squares_of f1 r1 f2 r2 None
  | String f1 (String r1 (String f2 (String r2 (String p EmptyString)))) =>
      if contains "pnbrqk" (String p "")
      then squares_of f1 r1 f2 r2 (Some p)
      else None
  | _ => None
  end.

Fixpoint set_nth {A : Type} (k : nat) (v : A) (l : list A) : list A :=
  match l, k with
  | [], _ => []
  | _ :: l', O => v :: l'
  | a :: l', S k' => a :: set_nth k' v l'
  end.

Definition is_pawn (c : ascii) : bool :=
  Ascii.eqb (upper c) "P".

(** The position after a move; undefined when the square the move starts
    from is empty. *)
Definition play (p : position) (m : plain_move) : option position :=
  let '(a, b, promotion) := m in
  match nth a (squares p) None with
  | None => None
  | Some c =>
      let placed :=
        match promotion with
        | Some q => if white_to_move p then upper q else q
        | None => c
        end in
      let quiet :=
        match nth b (squares p) None with
        | None => negb (is_pawn c)
        | Some _ => false
        end in
      Some (mkPosition
              (set_nth b (Some placed) (set_nth a None (squares p)))
              (negb (white_to_move p)) (castling p) "-"
              (if quiet then halfmove p + 1 else 0)
              (if white_to_move p then fullmove p else fullmove p + 1))
  end.

Definition gap_text (gap : nat) : string :=
  match gap with
  | O => ""
  | _ => str_int (Z.of_nat gap)
  end.

Fixpoint rank_text (sq : list (option ascii)) (gap : nat) : string :=
  match sq with
  | [] => gap_text gap
  | None :: sq' => rank_text sq' (S gap)
  | Some c :: sq' => gap_text gap ++ String c (rank_text sq' O)
  end.

Fixpoint ranks (k : nat) (sq : list (option ascii)) : list string :=
  match k with
  | O => []
  | S k' => rank_text (firstn 8 sq) O :: ranks k' (skipn 8 sq)
  end.

Definition print_fen (p : position) : string :=
  join " " [ join "/" (ranks 8 (squares p));
             if white_to_move p then "w" else "b";
             castling p; en_passant p;
             str_int (halfmove p); str_int (fullmove p) ].

(** The rank, from 1 to 8, of the square of index [k]. *)
Definition rank_of (k : nat) : nat := (8 - k / 8)%nat.

Definition square_name (k : nat) : string :=
  String (ascii_of_nat (97 + k mod 8))
    (String (ascii_of_nat (56 - k / 8)) "").

(** Algebraic notation of a plain move; undefined when the square the move
    starts from is empty. *)
Definition plain_san (p : position) (m : plain_move) : option string :=
  let '(a, b, promotion) := m in
  let takes :=
    match nth b (squares p) None with
    | Some _ => "x"
    | None => ""
    end in
  let crowned :=
    match promotion with
    | Some c => "=" ++ String (upper c) ""
    | None => ""
    end in
  match nth a (squares p) None with
  | None => None
  | Some c =>
      if is_pawn c then
        Some ((if String.eqb takes "x"
               then String (ascii_of_nat (97 + a mod 8)) "x" else "")
              ++ square_name b ++ crowned)
      else Some (String (upper c) takes ++ square_name b)
  end.

#[export] Instance rules : ChessRules := {|
  board := position;
  move := plain_move;
  Board := parse_fen;
  from_uci := parse_uci;
  push := play;
  fen := print_fen;
  san := plain_san;
  turn := white_to_move
|}.

(** The position at the start of a game. *)
Definition starting_fen : string :=
  "rnbqkbnr/pppppppp/8/8/8/8/PPPPPPPP/RNBQKBNR w KQkq - 0 1".

End PlainChess.


(** Patterns without special character, searched as they are; any other
    pattern is refused. *)
Module Literal.

Definition compile (pat : string) : option string :=
  if plain pat then Some pat else None.

Definition search (p s : string) : bool := contains s p.

#[export] Instance regex : Regex.
Proof.
  refine {| pattern := string;
            re_compile := compile;
            re_search := search;
            re_plain := _ |}.
  intros pat H. exists pat. unfold compile. rewrite H. split; reflexivity.
Defined.

End Literal.

(** Integer ratings.  A cell is an integer, some text, or missing; the text
    of an optionally signed decimal integer is coerced to that integer, any
    other text to NaN. *)
Module Integers.

Inductive icell : Type :=
  | Num (z : Z)
  | Text (s : string)
  | Missing.

Definition parse_digits (s : string) : option Z :=
  if nonempty s then option_map Z.of_uint (NilEmpty.uint_of_string s)
  else None.

Definition parse_int (s : string) : option Z :=
  match s with
  | String "-" s' => option_map Z.opp (parse_digits s')
  | String "+" s' => parse_digits s'
  | _ => parse_digits s
  end.

Definition coerce (c : icell) : option Z :=
  match c with
  | Num z => Some z
  | Text s => parse_int s
  | Missing => None
  end.

#[export] Instance numbers : Numbers := {|
  number := Z;
  cell := icell;
  to_numeric := map coerce;
  to_numeric_length := length_map coerce;
  num_ge := fun x bound => bound <=? x;
  num_le := fun x bound => x <=? bound;
  num_truthy := fun x => negb (x =? 0);
  num_str := str_int
|}.

End Integers.

(** The instances used wherever the libraries are not named. *)
#[global] Existing Instance PlainChess.rules.
#[global] Existing Instance Literal.regex.
#[global] Existing Instance Integers.numbers.

(** ** Sample tables *)

Module Samples.

Import PlainChess.
Import Integers.

(** The position after 1. e4. *)
Definition after_e4 : string :=
  "rnbqkbnr/pppppppp/8/8/4P3/8/PPPP1PPP/RNBQKBNR b KQkq - 0 1".

(** A puzzle of three moves. *)
Definition fork_puzzle : raw_row :=
  mkRow 0 starting_fen (Text "1500") (Some "fork endgame") "e2e4 e7e5 g1f3".

(** The same puzzle once filtered: the first move is played. *)
Definition fork_puzzle_advanced : row :=
  mkRow 0 after_e4 (Some 1500) (Some "fork endgame") "e7e5 g1f3".

(** An easy puzzle, first in its table. *)
Definition easy_puzzle : raw_row :=
  mkRow 0 starting_fen (Num 500) (Some "opening") "e2e4 e7e5".

(** A puzzle with a single move, second in its table. *)
Definition short_puzzle : raw_row :=
  mkRow 1 after_e4 (Num 1500) (Some "endgame") "e7e5".

Definition short_puzzle_numeric : row :=
  mkRow 1 after_e4 (Some 1500) (Some "endgame") "e7e5".

(** A puzzle whose rating is not a number. *)
Definition unrated_puzzle : raw_row :=
  mkRow 2 starting_fen (Text "n/a") None "e2e4 e7e5".

(** A puzzle of two moves under the label of [fork_puzzle]. *)
Definition queen_pawn_puzzle : raw_row :=
  mkRow 0 starting_fen (Num 1500) (Some "opening") "d2d4 d7d5".


(** A puzzle whose first move starts from an empty square. *)
Definition empty_square_puzzle : raw_row :=
  mkRow 3 starting_fen (Num 1500) None "e3e4 e7e5".

End Samples.

(** ** Reference behaviour of the stages

    The definitions below are not part of the script: they describe, as
    plain functions, what the loops of the script compute, and the theorems
    relate the two. *)

(** The tag is a regular expression. *)
Definition compiles {re : Regex} (tag : string) : bool :=
  match re_compile tag with
  | Some _ => true
  | None => false
  end.

(** The tags the theme stage compiles are regular expressions: whether
    lines 18-30 end without [re.error]. *)
Definition themes_compile {re : Regex} (themes : option string) : bool :=
  match themes with
  | Some s => if nonempty s then forallb compiles (split_sp s) else true
  | None => true
  end.

(** A tag matches a row when the Themes field is present and the tag, as a
    regular expression, is found in it. *)
Definition has_theme {re : Regex} {R : Type} (r : row_of R) (tag : string)
  : bool :=
  match Themes r, re_compile tag with
  | Some s, Some p => re_search p s
  | _, _ => false
  end.

(** What the loop of lines 32-40 does to one row on its own; [None] where
    the library refuses the position or the first move. *)
Definition advanced_row {rules : ChessRules} {nums : Numbers} (r : row)
  : option row :=
  match split_ws (Moves r) with
  | m1 :: m2 :: ms =>
      match Board (FEN r), from_uci m1 with
      | Some b, Some mv =>
          match push b mv with
          | Some b' =>
              Some (set_Moves (join " " (m2 :: ms)) (set_FEN (fen b') r))
          | None => None
          end
      | _, _ => None
      end
  | _ => Some r
  end.

(** The exception of a row of two moves or more that cannot be advanced:
    the position is read first, then the move, then the move is played. *)
Definition advance_error {rules : ChessRules} {nums : Numbers} (r : row)
  : exn :=
  match Board (FEN r) with
  | None => ValueError
  | Some _ =>
      match from_uci (nth 0 (split_ws (Moves r)) "") with
      | None => InvalidMoveError
      | Some _ => AssertionError
      end
  end.

(** What lines 13-16 keep: each bound counts when it is given and its truth
    value is true, that is, when it is not zero. *)
Definition in_range {nums : Numbers} (min_rating max_rating : option number)
  (r : row) : bool :=
  (if truthy min_rating
   then match min_rating with Some lo => ge (Rating r) lo | None => true end
   else true)
  &&
  (if truthy max_rating
   then match max_rating with Some hi => le (Rating r) hi | None => true end
   else true).

(** What lines 18-30 keep, when they end well.  With [all_themes] off the
    mask starts [True] and is only ever or-ed, so nothing is dropped. *)
Definition themes_ok {re : Regex} {R : Type} (themes : option string)
  (all_themes : bool) (r : row_of R) : bool :=
  match themes with
  | Some s =>
      if nonempty s
      then if all_themes then forallb (has_theme r) (split_sp s) else true
      else true
  | None => true
  end.

(** The rows that pass the rating and theme filters. *)
Definition passing {re : Regex} {nums : Numbers} (data : list raw_row)
  (themes : option string) (all_themes : bool)
  (min_rating max_rating : option number) : list row :=
  filter (fun r => in_range min_rating max_rating r
                   && themes_ok themes all_themes r)
    (coerce_rating data).

(** Lines 10-40: [filter_puzzles] before the cap is looked at. *)
Definition rows_before_cap {rules : ChessRules} {re : Regex}
  {nums : Numbers} (data : list raw_row) (themes : option string)
  (all_themes : bool) (min_rating max_rating : option number)
  : Py (list row) :=
  data <- theme_stage themes all_themes
            (rating_stage min_rating max_rating (coerce_rating data)) ;;
  advance_stage data.

(** The columns no stage after the coercion writes to. *)
Definition key {R : Type} (r : row_of R) : Z * R * option string :=
  (idx r, Rating r, Themes r).

(** A row the loop of lines 32-40 skips: fewer than two moves. *)
Definition short_row {R : Type} (r : row_of R) : bool :=
  (length (split_ws (Moves r)) <? 2)%nat.

(** The lines the loop of lines 32-40 prints for a list of rows. *)
Definition diagnostics {nums : Numbers} (rows : list row) : list string :=
  map (fun r => skip_message (idx r)) (filter short_row rows).

(** The algebraic moves of a list of coordinate moves played from [b], each
    taken and played on the board its predecessors lead to; [None] as soon
    as the library refuses a move. *)
Fixpoint translated {rules : ChessRules} (b : board) (tokens : list string)
  : option (list string) :=
  match tokens with
  | [] => Some []
  | uci :: tokens' =>
      match from_uci uci with
      | Some mv =>
          match san b mv, push b mv with
          | Some algebraic, Some b' =>
              option_map (cons algebraic) (translated b' tokens')
          | _, _ => None
          end
      | None => None
      end
  end.

(** A row that can be printed: the library reads its position and accepts
    its moves. *)
Definition printable {rules : ChessRules} {nums : Numbers} (r : row)
  : Prop :=
  exists b sans,
    Board (FEN r) = Some b /\ translated b (split_sp (Moves r)) = Some sans.

(** [l1] is [l2] with some elements left out, the others in their order. *)
Inductive subseq {A : Type} : list A -> list A -> Prop :=
  | subseq_nil (l : list A) : subseq [] l
  | subseq_keep (a : A) (l1 l2 : list A) :
      subseq l1 l2 -> subseq (a :: l1) (a :: l2)
  | subseq_drop (a : A) (l1 l2 : list A) :
      subseq l1 l2 -> subseq l1 (a :: l2).

(** The document of a table without rows: lines 63-82 and 121-131. *)
Definition empty_book {nums : Numbers}
  (themes n min_rating max_rating : value) : string :=
  ((preamble ++ section_heading themes n min_rating max_rating
    ++ after_heading)
   ++ lines [ "\newpage"; "\begin{multicols}{2}"; "    " ])
  ++ lines [ "\end{multicols}"; "\end{document}"; "    " ].

(** ** Runs on the sample tables *)

Example split_sp_keeps_empty_pieces :
  split_sp "fork  mate " = ["fork"; ""; "mate"; ""] /\ split_sp "" = [""].
Proof. split; reflexivity. Qed.

Example split_ws_drops_empty_pieces :
  split_ws " e2e4  e7e5 " = ["e2e4"; "e7e5"] /\ split_ws "" = [].
Proof. split; reflexivity. Qed.

Example to_numeric_coerces :
  to_numeric [Integers.Num 1500; Integers.Text "1500"; Integers.Text "-3";
              Integers.Text "n/a"; Integers.Text ""; Integers.Missing]
  = [Some 1500; Some 1500; Some (-3); None; None; None].
Proof. reflexivity. Qed.

(** The retained puzzle has its first move played. *)
Example fork_puzzle_is_advanced :
  filter_puzzles [Samples.fork_puzzle]
    (Some "fork") true (Some 1000) (Some 2000) (Some 10)
  = ([], Ok [Samples.fork_puzzle_advanced]).
Proof. vm_compute. reflexivity. Qed.

(** In conjunctive mode a missing tag excludes the puzzle. *)
Example fork_puzzle_is_no_mate :
  filter_puzzles [Samples.fork_puzzle]
    (Some "fork mate") true None None (Some 10)
  = ([], Ok []).
Proof. vm_compute. reflexivity. Qed.

(** A puzzle without themes, and one whose rating is no number, are dropped
    by a theme filter and by a rating bound. *)
Example unrated_puzzle_is_dropped :
  filter_puzzles [Samples.unrated_puzzle]
    (Some "fork") true None None (Some 10) = ([], Ok [])
  /\ filter_puzzles [Samples.unrated_puzzle]
       None true (Some 1) None (Some 10) = ([], Ok []).
Proof. split; vm_compute; reflexivity. Qed.

(** The solution of the advanced puzzle, and the two captions. *)
Example fork_puzzle_solution :
  translate_moves "e7e5 g1f3" Samples.after_e4
  = ret "e5 Nf3"
  /\ black_or_white Samples.after_e4 true
     = ret "\blackcircle"
  /\ black_or_white Samples.after_e4 false
     = ret "... ".
Proof. repeat split; vm_compute; reflexivity. Qed.

(** A position that cannot be read stops the whole run, after the first
    diagnostic was printed. *)
Example unreadable_position_raises :
  filter_puzzles
    [Samples.short_puzzle; mkRow 2 "?" (Integers.Num 1500) None "e2e4 e7e5"]
    None true None None (Some 10)
  = (["Skipping row 2: Insufficient moves"], Raise ValueError).
Proof. vm_compute. reflexivity. Qed.

(** A first move from an empty square stops the run as well, and so does a
    tag that is no regular expression. *)
Example empty_square_raises :
  filter_puzzles [Samples.empty_square_puzzle] None true None None (Some 10)
  = ([], Raise AssertionError)
  /\ filter_puzzles [Samples.fork_puzzle] (Some "fork (") true None None
       (Some 10)
     = ([], Raise ReError).
Proof. split; vm_compute; reflexivity. Qed.

(** ** Strings *)

Section Strings.

Lemma prefix_iff (p s : string) :
  String.prefix p s = true <-> exists rest, s = p ++ rest.
Proof.
  revert s; induction p as [|c p IH]; intros s; simpl.
  - split; [intros _; now exists s | intros _; now destruct s].
  - destruct s as [|d s]; simpl.
    + split; [discriminate | intros [rest Hr]; discriminate].
    + destruct (ascii_dec c d) as [->|Hne].
      * rewrite IH. split; intros [rest Hr]; exists rest; congruence.
      * split; [discriminate | intros [rest Hr]; congruence].
Qed.

(** [contains] is the substring relation. *)
Lemma contains_iff (s p : string) :
  contains s p = true <-> exists before after, s = before ++ p ++ after.
Proof.
  induction s as [|c s IH].
  - cbn [contains]. rewrite orb_false_r, prefix_iff. split.
    + intros [rest Hr]. now exists "", rest.
    + intros [before [after Hs]]. destruct before; simpl in Hs.
      * now exists after.
      * discriminate.
  - cbn [contains]. rewrite orb_true_iff, prefix_iff, IH. split.
    + intros [[rest Hr] | [before [after Hs]]].
      * now exists "", rest.
      * exists (String c before), after. simpl. now rewrite Hs.
    + intros [before [after Hs]]. destruct before as [|d before].
      * left. now exists after.
      * right. exists before, after. simpl in Hs. congruence.
Qed.

Lemma append_assoc (a b c : string) : (a ++ b) ++ c = a ++ (b ++ c).
Proof. induction a; simpl; congruence. Qed.

End Strings.

(** ** The effect monad *)

Section Effects.

Context {A B : Type}.

Lemma bind_ret_l (a : A) (k : A -> Py B) : bind (ret a) k = k a.
Proof. unfold bind, ret. now destruct (k a). Qed.

Lemma bind_raise (e : exn) (k : A -> Py B) : bind (raise e) k = raise e.
Proof. reflexivity. Qed.

(** A computation that ends well ran both of its halves to the end. *)
Lemma bind_Ok (m : Py A) (k : A -> Py B) (out : list string) (b : B) :
  bind m k = (out, Ok b) ->
  exists out1 a out2,
    m = (out1, Ok a) /\ k a = (out2, Ok b) /\ out = (out1 ++ out2)%list.
Proof.
  unfold bind. destruct m as [out1 [a|e]]; [|discriminate].
  destruct (k a) as [out2 r] eqn:Hk. intros H; inversion H; subst.
  now exists out1, a, out2.
Qed.

Lemma or_raise_Ok (e : exn) (o : option A) (out : list string) (a : A) :
  or_raise e o = (out, Ok a) -> o = Some a /\ out = [].
Proof. destruct o; simpl; intros H; inversion H; auto. Qed.

End Effects.

Ltac bind_inv H :=
  let o1 := fresh "out" in
  let a := fresh "v" in
  let o2 := fresh "out" in
  let H1 := fresh "Hrun" in
  let H2 := fresh "Hrest" in
  let H3 := fresh "Hout" in
  apply bind_Ok in H; destruct H as (o1 & a & o2 & H1 & H2 & H3).

Ltac ret_inv H :=
  unfold ret in H; inversion H; subst; clear H.

(** ** Masks and selections *)

Section Selection.

Context {A : Type}.

Lemma select_map (p : A -> bool) (data : list A) :
  select (map p data) data = filter p data.
Proof.
  unfold select. induction data as [|a data IH]; simpl; [reflexivity|].
  destruct (p a); simpl; now rewrite IH.
Qed.

Lemma filter_filter (p q : A -> bool) (data : list A) :
  filter q (filter p data) = filter (fun a => p a && q a) data.
Proof.
  induction data as [|a data IH]; simpl; [reflexivity|].
  destruct (p a); simpl; [destruct (q a)|]; now rewrite IH.
Qed.

Lemma filter_true (data : list A) : filter (fun _ => true) data = data.
Proof. induction data; simpl; congruence. Qed.

Lemma NoDup_map_filter {K : Type} (f : A -> K) (p : A -> bool)
  (data : list A) :
  NoDup (map f data) -> NoDup (map f (filter p data)).
Proof.
  induction data as [|a data IH]; simpl; [auto|].
  intros H; inversion H as [|x l Hnot Hnd]; subst.
  destruct (p a); simpl; [constructor|]; auto.
  intros Hin. apply Hnot. apply in_map_iff in Hin.
  destruct Hin as [b [Hb Hin]]. apply filter_In in Hin.
  apply in_map_iff. exists b. tauto.
Qed.

Lemma NoDup_map_eq {K : Type} (f : A -> K) (data : list A) (a b : A) :
  NoDup (map f data) -> In a data -> In b data -> f a = f b -> a = b.
Proof.
  induction data as [|c data IH]; simpl; [tauto|].
  intros H; inversion H as [|x l Hnot Hnd]; subst.
  intros [->|Ha] [->|Hb] Hf; auto.
  - exfalso. apply Hnot. rewrite Hf. now apply in_map.
  - exfalso. apply Hnot. rewrite <- Hf. now apply in_map.
Qed.

Lemma firstn_subset (k : nat) (data : list A) (a : A) :
  In a (firstn k data) -> In a data.
Proof.
  intros H. rewrite <- (firstn_skipn k data). apply in_or_app. now left.
Qed.

Lemma combine_nth_error {B : Type} (l : list A) (l' : list B) (a : A)
  (b : B) :
  In (a, b) (combine l l') <->
  exists k, nth_error l k = Some a /\ nth_error l' k = Some b.
Proof.
  revert l'. induction l as [|x l IH]; intros l'.
  - simpl. split; [tauto|]. intros [[|k] [H _]]; discriminate.
  - destruct l' as [|y l']; cbn [combine].
    + split; [intros []|]. intros [[|k] [_ H]]; discriminate.
    + cbn [In]. rewrite IH. split.
      * intros [H|[k Hk]].
        -- inversion H; subst. now exists O.
        -- now exists (S k).
      * intros [[|k] [Ha Hb]]; cbn [nth_error] in *.
        -- left. congruence.
        -- right. now exists k.
Qed.

Lemma map_fst_combine {B : Type} (l : list A) (l' : list B) :
  length l = length l' -> map fst (combine l l') = l.
Proof.
  revert l'. induction l as [|x l IH]; intros [|y l'] H;
    try discriminate; simpl; [reflexivity|].
  f_equal. apply IH. now inversion H.
Qed.

Lemma NoDup_map_nth_error {K : Type} (f : A -> K) (data : list A)
  (i j : nat) (a b : A) :
  NoDup (map f data) ->
  nth_error data i = Some a -> nth_error data j = Some b -> f a = f b ->
  i = j.
Proof.
  intros Hnd Hi Hj Hf.
  apply (proj1 (NoDup_nth_error (map f data)) Hnd).
  - rewrite length_map. apply nth_error_Some. congruence.
  - rewrite !nth_error_map, Hi, Hj. simpl. congruence.
Qed.

Lemma iloc_head_In (n : Z) (data : list A) (a : A) :
  In a (iloc_head n data) -> In a data.
Proof.
  unfold iloc_head. destruct (0 <=? n); apply firstn_subset.
Qed.

End Selection.

(** ** The rating and theme stages *)

Section Stages.

Context {rules : ChessRules} {re : Regex} {nums : Numbers}.

Lemma rating_stage_filter (min_rating max_rating : option number)
  (data : list row) :
  rating_stage min_rating max_rating data
  = filter (in_range min_rating max_rating) data.
Proof.
  unfold rating_stage, in_range.
  destruct min_rating as [lo|], max_rating as [hi|];
    repeat match goal with
           | |- context [truthy ?o] => destruct (truthy o)
           end;
    rewrite ?select_map, ?filter_filter;
    try (apply filter_ext; intros r; now rewrite ?andb_true_r);
    try (symmetry; apply filter_true).
Qed.

Lemma mask_and_map (g : row -> bool) (data : list row) (p : pattern) :
  mask_and (map g data) (str_contains (map Themes data) p)
  = map (fun r => g r && match Themes r with
                         | Some s => re_search p s
                         | None => false
                         end) data.
Proof.
  unfold mask_and, str_contains.
  induction data as [|r data IH]; simpl; [reflexivity|]. now rewrite IH.
Qed.

Lemma mask_or_map (g : row -> bool) (data : list row) (p : pattern) :
  mask_or (map g data) (str_contains (map Themes data) p)
  = map (fun r => g r || match Themes r with
                         | Some s => re_search p s
                         | None => false
                         end) data.
Proof.
  unfold mask_or, str_contains.
  induction data as [|r data IH]; simpl; [reflexivity|]. now rewrite IH.
Qed.

Lemma has_theme_compiled (r : row) (tag : string) (p : pattern) :
  re_compile tag = Some p ->
  has_theme r tag = match Themes r with
                    | Some s => re_search p s
                    | None => false
                    end.
Proof. intros H. unfold has_theme. rewrite H. now destruct (Themes r). Qed.

(** The conjunctive loop raises at the first tag that does not compile;
    otherwise the mask holds, for each row, the conjunction of the starting
    value and the per-tag tests. *)
Lemma theme_loop_and (tags : list string) (g : row -> bool)
  (data : list row) :
  for_each (theme_step mask_and data) tags (map g data)
  = if forallb compiles tags
    then ret (map (fun r => g r && forallb (has_theme r) tags) data)
    else raise ReError.
Proof.
  revert g; induction tags as [|t tags IH]; intros g;
    cbn [for_each forallb].
  - f_equal. apply map_ext. intros r. now rewrite andb_true_r.
  - unfold theme_step at 1, compiles at 1.
    destruct (re_compile t) as [p|] eqn:Hp; cbn [or_raise andb];
      [|reflexivity].
    rewrite !bind_ret_l, mask_and_map, IH.
    destruct (forallb compiles tags); [|reflexivity].
    f_equal. apply map_ext. intros r.
    now rewrite (has_theme_compiled r t p Hp), andb_assoc.
Qed.

(** The disjunctive loop likewise, with the disjunction. *)
Lemma theme_loop_or (tags : list string) (g : row -> bool)
  (data : list row) :
  for_each (theme_step mask_or data) tags (map g data)
  = if forallb compiles tags
    then ret (map (fun r => g r || existsb (has_theme r) tags) data)
    else raise ReError.
Proof.
  revert g; induction tags as [|t tags IH]; intros g;
    cbn [for_each forallb existsb].
  - f_equal. apply map_ext. intros r. now rewrite orb_false_r.
  - unfold theme_step at 1, compiles at 1.
    destruct (re_compile t) as [p|] eqn:Hp; cbn [or_raise andb];
      [|reflexivity].
    rewrite !bind_ret_l, mask_or_map, IH.
    destruct (forallb compiles tags); [|reflexivity].
    f_equal. apply map_ext. intros r.
    now rewrite (has_theme_compiled r t p Hp), orb_assoc.
Qed.

(** The theme stage in one equation: it raises [re.error] when a tag does
    not compile, and otherwise keeps the rows [themes_ok] describes.
    Starting from [True], or-ing never clears an entry. *)
Lemma theme_stage_eq (themes : option string) (all_themes : bool)
  (data : list row) :
  theme_stage themes all_themes data
  = if themes_compile themes
    then ret (filter (themes_ok themes all_themes) data)
    else raise ReError.
Proof.
  unfold theme_stage, themes_compile, themes_ok, truthy_str, theme_mask.
  destruct themes as [s|]; [|now rewrite filter_true].
  destruct (nonempty s); [|now rewrite filter_true].
  unfold all_true. destruct all_themes.
  - rewrite theme_loop_and.
    destruct (forallb compiles (split_sp s)); [|reflexivity].
    now rewrite bind_ret_l, select_map.
  - rewrite theme_loop_or.
    destruct (forallb compiles (split_sp s)); [|reflexivity].
    rewrite bind_ret_l, select_map. reflexivity.
Qed.

Lemma filter_puzzles_eq (data : list raw_row) (themes : option string)
  (all_themes : bool) (min_rating max_rating : option number)
  (n : option Z) :
  filter_puzzles data themes all_themes min_rating max_rating n
  = if themes_compile themes
    then table <- advance_stage
                    (passing data themes all_themes min_rating max_rating) ;;
         cap_stage n table
    else raise ReError.
Proof.
  unfold filter_puzzles, passing.
  rewrite theme_stage_eq, rating_stage_filter, filter_filter.
  destruct (themes_compile themes); [|reflexivity].
  now rewrite bind_ret_l.
Qed.

Lemma rows_before_cap_eq (data : list raw_row) (themes : option string)
  (all_themes : bool) (min_rating max_rating : option number) :
  rows_before_cap data themes all_themes min_rating max_rating
  = if themes_compile themes
    then advance_stage
           (passing data themes all_themes min_rating max_rating)
    else raise ReError.
Proof.
  unfold rows_before_cap, passing.
  rewrite theme_stage_eq, rating_stage_filter, filter_filter.
  destruct (themes_compile themes); [|reflexivity].
  now rewrite bind_ret_l.
Qed.

(** [filter_puzzles] is its lines before the cap, then the cap. *)
Lemma filter_puzzles_split (data : list raw_row) (themes : option string)
  (all_themes : bool) (min_rating max_rating : option number)
  (n : option Z) :
  filter_puzzles data themes all_themes min_rating max_rating n
  = (table <- rows_before_cap data themes all_themes min_rating
                max_rating ;;
     cap_stage n table).
Proof.
  rewrite filter_puzzles_eq, rows_before_cap_eq.
  now destruct (themes_compile themes).
Qed.

Lemma coerce_rating_idx (data : list raw_row) :
  map idx (coerce_rating data) = map idx data.
Proof.
  unfold coerce_rating. rewrite map_map.
  transitivity (map idx (map fst (combine data
                                    (to_numeric (map Rating data))))).
  - rewrite map_map. apply map_ext. now intros [r v].
  - f_equal. apply map_fst_combine.
    now rewrite to_numeric_length, length_map.
Qed.

(** A passing row is an input row with its rating replaced by the value of
    the coerced column at its place. *)
Lemma passing_origin (data : list raw_row) (themes : option string)
  (all_themes : bool) (min_rating max_rating : option number) (r : row) :
  In r (passing data themes all_themes min_rating max_rating) ->
  exists k r0,
    nth_error data k = Some r0
    /\ nth_error (to_numeric (map Rating data)) k = Some (Rating r)
    /\ r = set_Rating (Rating r) r0
    /\ in_range min_rating max_rating r = true
    /\ themes_ok themes all_themes r = true.
Proof.
  unfold passing. rewrite filter_In, andb_true_iff.
  intros [Hin [Hr Ht]]. unfold coerce_rating in Hin.
  apply in_map_iff in Hin. destruct Hin as [[r0 v] [<- Hin]].
  apply combine_nth_error in Hin. destruct Hin as (k & Hk & Hv).
  now exists k, r0.
Qed.

Lemma passing_idx_NoDup (data : list raw_row) (themes : option string)
  (all_themes : bool) (min_rating max_rating : option number) :
  NoDup (map idx data) ->
  NoDup (map idx (passing data themes all_themes min_rating max_rating)).
Proof.
  intros H. unfold passing. apply NoDup_map_filter.
  now rewrite coerce_rating_idx.
Qed.

End Stages.

(** ** The loop over the rows *)

Section Advance.

Context {rules : ChessRules} {re : Regex} {nums : Numbers}.

Lemma at_FEN_key (label : Z) (v : string) (data : list row) :
  map key (at_FEN label v data) = map key data.
Proof.
  unfold at_FEN. rewrite map_map. apply map_ext.
  intros r. now destruct (idx r =? label).
Qed.

Lemma at_Moves_key (label : Z) (v : string) (data : list row) :
  map key (at_Moves label v data) = map key data.
Proof.
  unfold at_Moves. rewrite map_map. apply map_ext.
  intros r. now destruct (idx r =? label).
Qed.

(** A write under a label no row carries changes nothing. *)
Lemma at_FEN_fresh (label : Z) (v : string) (data : list row) :
  ~ In label (map idx data) -> at_FEN label v data = data.
Proof.
  unfold at_FEN. induction data as [|r data IH]; simpl; [reflexivity|].
  intros H. destruct (Z.eqb_spec (idx r) label) as [E|E]; [tauto|].
  rewrite IH; tauto.
Qed.

Lemma at_Moves_fresh (label : Z) (v : string) (data : list row) :
  ~ In label (map idx data) -> at_Moves label v data = data.
Proof.
  unfold at_Moves. induction data as [|r data IH]; simpl; [reflexivity|].
  intros H. destruct (Z.eqb_spec (idx r) label) as [E|E]; [tauto|].
  rewrite IH; tauto.
Qed.

Lemma at_FEN_app (label : Z) (v : string) (l1 l2 : list row) :
  at_FEN label v (l1 ++ l2) = (at_FEN label v l1 ++ at_FEN label v l2)%list.
Proof. apply map_app. Qed.

Lemma at_Moves_app (label : Z) (v : string) (l1 l2 : list row) :
  at_Moves label v (l1 ++ l2)
  = (at_Moves label v l1 ++ at_Moves label v l2)%list.
Proof. apply map_app. Qed.

Lemma at_FEN_cons (label : Z) (v : string) (r : row) (l : list row) :
  at_FEN label v (r :: l)
  = (if idx r =? label then set_FEN v r else r) :: at_FEN label v l.
Proof. reflexivity. Qed.

Lemma at_Moves_cons (label : Z) (v : string) (r : row) (l : list row) :
  at_Moves label v (r :: l)
  = (if idx r =? label then set_Moves v r else r) :: at_Moves label v l.
Proof. reflexivity. Qed.

(** A row with fewer than two moves: the diagnostic is printed, the table is
    left as it is, and no exception is raised. *)
Lemma advance_row_skip (table : list row) (r : row) :
  (length (split_ws (Moves r)) < 2)%nat ->
  advance_row table r = ([skip_message (idx r)], Ok table).
Proof.
  intros H. unfold advance_row.
  destruct (Nat.leb_spec 2 (length (split_ws (Moves r)))); [lia|reflexivity].
Qed.

(** A row with two moves or more: nothing is printed, and the two writes of
    lines 37 and 38 are made under the label of the row. *)
Lemma advance_row_play (table table' : list row) (r : row)
  (m1 m2 : string) (ms out : list string) :
  split_ws (Moves r) = m1 :: m2 :: ms ->
  advance_row table r = (out, Ok table') ->
  exists b mv b',
    Board (FEN r) = Some b /\ from_uci m1 = Some mv
    /\ push b mv = Some b' /\ out = [] /\
    table' = at_Moves (idx r) (join " " (m2 :: ms))
               (at_FEN (idx r) (fen b') table).
Proof.
  intros Hm. unfold advance_row. rewrite Hm. cbn [length Nat.leb nth skipn].
  intros H. bind_inv H. apply or_raise_Ok in Hrun as [Hb ->].
  bind_inv Hrest. apply or_raise_Ok in Hrun as [Hmv ->].
  bind_inv Hrest0. apply or_raise_Ok in Hrun as [Hp ->].
  ret_inv Hrest. now exists v, v0, v1.
Qed.

Lemma advance_row_key (table table' : list row) (r : row)
  (out : list string) :
  advance_row table r = (out, Ok table') -> map key table' = map key table.
Proof.
  destruct (split_ws (Moves r)) as [|m1 [|m2 ms]] eqn:Hm.
  - rewrite advance_row_skip by (rewrite Hm; simpl; lia).
    intros H; now inversion H.
  - rewrite advance_row_skip by (rewrite Hm; simpl; lia).
    intros H; now inversion H.
  - intros H. destruct (advance_row_play _ _ _ _ _ _ _ Hm H)
      as (b & mv & b' & _ & _ & _ & _ & ->).
    now rewrite at_Moves_key, at_FEN_key.
Qed.

(** The loop writes to the FEN and Moves columns only: labels, ratings and
    themes, and so the number and order of the rows, stay as they were. *)
Lemma advance_loop_key (todo table table' : list row) (out : list string) :
  for_each advance_row todo table = (out, Ok table') ->
  map key table' = map key table.
Proof.
  revert table out. induction todo as [|r todo IH]; intros table out H.
  - ret_inv H. reflexivity.
  - cbn [for_each] in H. bind_inv H.
    rewrite (IH _ _ Hrest). eapply advance_row_key; eauto.
Qed.


(** With distinct labels, the loop does to every row what [advanced_row]
    describes, and touches no other row. *)
Lemma advance_loop_rows (todo done done' table' : list row)
  (out : list string) :
  NoDup (map idx (done ++ todo)) ->
  map idx done' = map idx done ->
  for_each advance_row todo (done' ++ todo)%list = (out, Ok table') ->
  exists todo',
    table' = (done' ++ todo')%list /\
    Forall2 (fun r r' => advanced_row r = Some r') todo todo'.
Proof.
  revert done done' out.
  induction todo as [|r todo IH]; intros done done' out Hnd Hidx H.
  - ret_inv H. exists []. split; [reflexivity|constructor].
  - cbn [for_each] in H. bind_inv H.
    assert (Hfresh1 : ~ In (idx r) (map idx done')).
    { rewrite Hidx. rewrite map_app in Hnd. simpl in Hnd.
      apply NoDup_remove_2 in Hnd. intros Hin. apply Hnd.
      apply in_or_app. now left. }
    assert (Hfresh2 : ~ In (idx r) (map idx todo)).
    { rewrite map_app in Hnd. simpl in Hnd.
      apply NoDup_remove_2 in Hnd. intros Hin. apply Hnd.
      apply in_or_app. now right. }
    assert (Hstep : exists r', advanced_row r = Some r' /\ idx r' = idx r
                               /\ v = ((done' ++ [r']) ++ todo)%list).
    { unfold advanced_row.
      destruct (split_ws (Moves r)) as [|m1 [|m2 ms]] eqn:Hm.
      - rewrite advance_row_skip in Hrun by (rewrite Hm; simpl; lia).
        inversion Hrun; subst. exists r. rewrite <- app_assoc. auto.
      - rewrite advance_row_skip in Hrun by (rewrite Hm; simpl; lia).
        inversion Hrun; subst. exists r. rewrite <- app_assoc. auto.
      - destruct (advance_row_play _ _ _ _ _ _ _ Hm Hrun)
          as (b & mv & b' & -> & -> & -> & _ & ->).
        eexists. split; [reflexivity|]. split; [reflexivity|].
        rewrite at_FEN_app, at_FEN_cons, Z.eqb_refl.
        rewrite !at_FEN_fresh by assumption.
        rewrite at_Moves_app, at_Moves_cons. cbn [idx set_FEN].
        rewrite Z.eqb_refl, !at_Moves_fresh by assumption.
        now rewrite <- app_assoc. }
    destruct Hstep as (r' & Hadv & Hlabel & ->).
    destruct (IH (done ++ [r])%list (done' ++ [r'])%list out1) as
      (todo' & -> & Hall).
    + now rewrite <- app_assoc.
    + rewrite !map_app. simpl. f_equal; [exact Hidx | now rewrite Hlabel].
    + assumption.
    + exists (r' :: todo'). split; [now rewrite <- app_assoc|].
      now constructor.
Qed.

Lemma advance_stage_rows (data table' : list row) (out : list string) :
  NoDup (map idx data) ->
  advance_stage data = (out, Ok table') ->
  Forall2 (fun r r' => advanced_row r = Some r') data table'.
Proof.
  intros Hnd H.
  destruct (advance_loop_rows data [] [] table' out Hnd eq_refl H)
    as (todo' & -> & Hall).
  exact Hall.
Qed.

(** The cap keeps rows of the table it is given. *)
Lemma cap_stage_In (n : option Z) (data out : list row) (log : list string)
  (r : row) :
  cap_stage n data = (log, Ok out) -> In r out -> In r data.
Proof.
  unfold cap_stage. destruct n as [n|]; [|discriminate].
  destruct (Z.of_nat (length data) <=? n); intros H; ret_inv H; auto.
  apply iloc_head_In.
Qed.

(** With a cap that is not negative, the cap keeps the first [n] rows. *)
Lemma cap_stage_firstn (n : Z) (data : list row) :
  0 <= n -> cap_stage (Some n) data = ret (firstn (Z.to_nat n) data).
Proof.
  intros Hn. unfold cap_stage, iloc_head.
  destruct (Z.leb_spec (Z.of_nat (length data)) n).
  - rewrite firstn_all2 by lia. reflexivity.
  - destruct (Z.leb_spec 0 n); [reflexivity|lia].
Qed.

(** How a run of [filter_puzzles] that returns splits into its stages. *)
Lemma filter_puzzles_Ok (data : list raw_row) (themes : option string)
  (all_themes : bool) (min_rating max_rating : option number)
  (n : option Z) (log : list string) (out : list row) :
  filter_puzzles data themes all_themes min_rating max_rating n
  = (log, Ok out) ->
  exists table,
    advance_stage (passing data themes all_themes min_rating max_rating)
    = (log, Ok table)
    /\ cap_stage n table = ([], Ok out).
Proof.
  rewrite filter_puzzles_eq.
  destruct (themes_compile themes); [|discriminate].
  intros H. bind_inv H. exists v.
  assert (out1 = []) as ->.
  { unfold cap_stage in Hrest. destruct n as [n|]; [|discriminate].
    destruct (Z.of_nat (length v) <=? n); now inversion Hrest. }
  rewrite app_nil_r in Hout. subst. auto.
Qed.

(** A run that returns has compiled every tag. *)
Lemma filter_puzzles_compiled (data : list raw_row)
  (themes : option string) (all_themes : bool)
  (min_rating max_rating : option number) (n : option Z)
  (log : list string) (out : list row) :
  filter_puzzles data themes all_themes min_rating max_rating n
  = (log, Ok out) ->
  themes_compile themes = true.
Proof.
  rewrite filter_puzzles_eq.
  destruct (themes_compile themes); [reflexivity|discriminate].
Qed.

End Advance.

(** ** Properties of [filter_puzzles] *)

Section FilterProperties.

Context {rules : ChessRules} {re : Regex} {nums : Numbers}.

Lemma Forall2_In_r {X Y : Type} (P : X -> Y -> Prop) (l : list X)
  (l' : list Y) (y : Y) :
  Forall2 P l l' -> In y l' -> exists x, In x l /\ P x y.
Proof.
  induction 1 as [|x y0 l l' Hxy Hall IH]; simpl; [tauto|].
  intros [->|Hin].
  - exists x. auto.
  - destruct (IH Hin) as [x0 [Hx0 Hp]]. exists x0. auto.
Qed.

Lemma advanced_row_key (r r' : row) :
  advanced_row r = Some r' -> key r' = key r.
Proof.
  unfold advanced_row.
  destruct (split_ws (Moves r)) as [|m1 [|m2 ms]];
    try (intros H; now inversion H).
  destruct (Board (FEN r)) as [b|], (from_uci m1) as [mv|];
    try discriminate.
  destruct (push b mv); intros H; now inversion H.
Qed.

(** A returned row is a passing row, up to its FEN and Moves fields. *)
Lemma filter_puzzles_key (data : list raw_row) (themes : option string)
  (all_themes : bool) (min_rating max_rating : option number) (n : option Z)
  (log : list string) (out : list row) (r' : row) :
  filter_puzzles data themes all_themes min_rating max_rating n
  = (log, Ok out) ->
  In r' out ->
  exists r, In r (passing data themes all_themes min_rating max_rating)
            /\ key r = key r'.
Proof.
  intros H Hin. destruct (filter_puzzles_Ok _ _ _ _ _ _ _ _ H)
    as (table & Hadv & Hcap).
  apply (cap_stage_In _ _ _ _ _ Hcap) in Hin.
  apply advance_loop_key in Hadv.
  apply (in_map key) in Hin. rewrite Hadv in Hin.
  apply in_map_iff in Hin. destruct Hin as [r [Hk Hr]]. now exists r.
Qed.

(** In conjunctive mode the theme stage keeps a row only if every tag is
    found in its Themes field. *)
Lemma themes_ok_conjunctive (s : string) (r : row) (tag : string) :
  nonempty s = true ->
  themes_ok (Some s) true r = true ->
  In tag (split_sp s) ->
  exists field p,
    Themes r = Some field /\ re_compile tag = Some p
    /\ re_search p field = true.
Proof.
  intros Hs. unfold themes_ok. rewrite Hs. intros Hall Htag.
  rewrite forallb_forall in Hall. specialize (Hall tag Htag).
  unfold has_theme in Hall. destruct (Themes r) as [field|]; [|discriminate].
  destruct (re_compile tag) as [p|]; [|discriminate].
  now exists field, p.
Qed.

(** Tags without special character compile. *)
Lemma plain_tags_compile (s : string) :
  forallb plain (split_sp s) = true -> themes_compile (Some s) = true.
Proof.
  intros H. unfold themes_compile. destruct (nonempty s); [|reflexivity].
  apply forallb_forall. intros tag Htag.
  rewrite forallb_forall in H. destruct (re_plain tag (H tag Htag))
    as (p & Hp & _).
  unfold compiles. now rewrite Hp.
Qed.

(** In disjunctive mode the theme stage keeps every row, once the tags
    compile. *)
Lemma theme_stage_disjunctive (themes : option string) (data : list row) :
  themes_compile themes = true ->
  theme_stage themes false data = ret data.
Proof.
  intros H. rewrite theme_stage_eq, H. f_equal. unfold themes_ok.
  destruct themes as [s|]; [destruct (nonempty s)|]; apply filter_true.
Qed.

End FilterProperties.

(** C1.  The claim: the theme stage retains a row only if every tag
    (conjunctive mode), or at least one tag (disjunctive mode), is a
    substring of the Themes field.  The code departs from it in disjunctive
    mode: the mask starts all true and is only or-ed, so every row is
    retained.  Here the theme is "fork", the mode is disjunctive, and the row
    kept has the Themes field "endgame", of which "fork" is no substring and
    in which no regular expression library finds it. *)
Theorem theme_stage_disjunctive_keeps_unmatched_row {re : Regex} :
  let r := Samples.short_puzzle_numeric in
  theme_stage (Some "fork") false [r] = ret [r]
  /\ result (filter_puzzles [Samples.short_puzzle] (Some "fork") false None
               None (Some 10))
     = Ok [r]
  /\ Themes r = Some "endgame"
  /\ split_sp "fork" = ["fork"]
  /\ ~ (exists before after, "endgame" = before ++ "fork" ++ after)
  /\ (forall p, re_compile "fork" = Some p -> re_search p "endgame" = false).
Proof.
  cbv zeta.
  assert (Hc : themes_compile (Some "fork") = true)
    by (apply plain_tags_compile; reflexivity).
  split; [now apply theme_stage_disjunctive|].
  split; [rewrite filter_puzzles_eq, Hc; vm_compute; reflexivity|].
  repeat split.
  - intros H. apply contains_iff in H. vm_compute in H. discriminate.
  - intros p Hp. destruct (re_plain "fork" eq_refl) as (q & Hq & Hs).
    rewrite Hq in Hp. inversion Hp; subst. now rewrite Hs.
Qed.

(** C2, as the code has it.  In a table with distinct index labels, a
    returned row whose input row has the moves m1, m2, ..., mk (k >= 2) has
    the Moves field "m2 ... mk" and, as FEN field, the notation of the input
    position after m1. *)
Theorem filter_puzzles_plays_first_move
  {rules : ChessRules} {re : Regex} {nums : Numbers}
  (data : list raw_row) (themes : option string) (all_themes : bool)
  (min_rating max_rating : option number) (n : option Z)
  (log : list string) (out : list row)
  (r0 : raw_row) (r' : row) (m1 m2 : string) (ms : list string) :
  NoDup (map idx data) ->
  filter_puzzles data themes all_themes min_rating max_rating n
  = (log, Ok out) ->
  In r' out ->
  In r0 data ->
  idx r0 = idx r' ->
  split_ws (Moves r0) = m1 :: m2 :: ms ->
  Moves r' = join " " (m2 :: ms)
  /\ exists b mv b',
       Board (FEN r0) = Some b /\ from_uci m1 = Some mv
       /\ push b mv = Some b' /\ FEN r' = fen b'.
Proof.
  intros Hnd H Hin Hin0 Hlabel Hmoves.
  destruct (filter_puzzles_Ok _ _ _ _ _ _ _ _ H) as (table & Hadv & Hcap).
  apply (cap_stage_In _ _ _ _ _ Hcap) in Hin.
  apply advance_stage_rows in Hadv; [|now apply passing_idx_NoDup].
  destruct (Forall2_In_r _ _ _ _ Hadv Hin) as (r & Hr & Hstep).
  destruct (passing_origin _ _ _ _ _ _ Hr)
    as (k & r1 & Hk & _ & Hr1 & _).
  assert (r1 = r0) as ->.
  { apply (NoDup_map_eq idx data); auto.
    - eapply nth_error_In; eauto.
    - apply advanced_row_key in Hstep. unfold key in Hstep.
      inversion Hstep. rewrite Hr1 in *. cbn [idx set_Rating] in *.
      congruence. }
  unfold advanced_row in Hstep. rewrite Hr1 in Hstep.
  cbn [Moves FEN set_Rating] in Hstep. rewrite Hmoves in Hstep.
  destruct (Board (FEN r0)) as [b|]; [|discriminate].
  destruct (from_uci m1) as [mv|]; [|discriminate].
  destruct (push b mv) as [b'|] eqn:Hp; [|discriminate].
  inversion Hstep; subst. cbn [Moves FEN set_Moves set_FEN].
  split; [reflexivity|]. now exists b, mv, b'.
Qed.

Lemma filter_puzzles_plays_first_move_witness :
  Moves Samples.fork_puzzle_advanced = "e7e5 g1f3"
  /\ exists b mv b',
       PlainChess.parse_fen PlainChess.starting_fen = Some b
       /\ PlainChess.parse_uci "e2e4" = Some mv
       /\ PlainChess.play b mv = Some b'
       /\ FEN Samples.fork_puzzle_advanced = PlainChess.print_fen b'.
Proof.
  refine (filter_puzzles_plays_first_move
            [Samples.fork_puzzle] (Some "fork") true (Some 1000) (Some 2000)
            (Some 10) [] [Samples.fork_puzzle_advanced] Samples.fork_puzzle
            Samples.fork_puzzle_advanced "e2e4" "e7e5" ["g1f3"]
            _ _ _ _ _ _).
  - repeat constructor. simpl. tauto.
  - vm_compute. reflexivity.
  - simpl. left. reflexivity.
  - simpl. left. reflexivity.
  - reflexivity.
  - vm_compute. reflexivity.
Defined.

(** C2, as stated, fails when two rows share a label: the writes of lines
    37 and 38 go to every row under the label, so the row of the first
    puzzle, whose moves are e2e4 e7e5 g1f3, is returned with the remaining
    move of the second. *)
Lemma shared_label_overwrites_advanced_row :
  exists r1 r2,
    result (filter_puzzles
              [Samples.fork_puzzle; Samples.queen_pawn_puzzle] None true
              None None (Some 10))
    = Ok [r1; r2]
    /\ key r1 = (idx Samples.fork_puzzle, Some 1500,
                 Themes Samples.fork_puzzle)
    /\ split_ws (Moves Samples.fork_puzzle) = ["e2e4"; "e7e5"; "g1f3"]
    /\ Moves r1 = "d7d5"
    /\ Moves r1 <> join " " ["e7e5"; "g1f3"].
Proof.
  eexists _, _. split; [vm_compute; reflexivity|].
  repeat split. discriminate.
Qed.

Section RatingBounds.

Context {rules : ChessRules} {re : Regex} {nums : Numbers}.

(** A returned row carries the coerced rating of an input row, within every
    bound that is given and is not zero. *)
Lemma filter_puzzles_in_range (data : list raw_row) (themes : option string)
  (all_themes : bool) (min_rating max_rating : option number)
  (n : option Z) (log : list string) (out : list row) (r : row) :
  filter_puzzles data themes all_themes min_rating max_rating n
  = (log, Ok out) ->
  In r out ->
  (exists k r0,
     nth_error data k = Some r0 /\ idx r0 = idx r
     /\ nth_error (to_numeric (map Rating data)) k = Some (Rating r))
  /\ (forall lo, min_rating = Some lo -> num_truthy lo = true ->
        exists v, Rating r = Some v /\ num_ge v lo = true)
  /\ (forall hi, max_rating = Some hi -> num_truthy hi = true ->
        exists v, Rating r = Some v /\ num_le v hi = true).
Proof.
  intros H Hin.
  destruct (filter_puzzles_key _ _ _ _ _ _ _ _ _ H Hin) as (r1 & Hr1 & Hk).
  destruct (passing_origin _ _ _ _ _ _ Hr1)
    as (k & r0 & Hk0 & Hv & Hr0 & Hrange & _).
  unfold key in Hk. injection Hk as Hi Hrat Hth.
  split.
  { exists k, r0. split; [assumption|]. split.
    - rewrite <- Hi, Hr0. reflexivity.
    - now rewrite <- Hrat. }
  unfold in_range in Hrange. apply andb_true_iff in Hrange.
  destruct Hrange as [Hlo Hhi]. rewrite Hrat in Hlo, Hhi. split.
  - intros lo -> Hnz. cbn [truthy] in Hlo. rewrite Hnz in Hlo.
    unfold ge in Hlo. destruct (Rating r) as [v|]; [|discriminate].
    now exists v.
  - intros hi -> Hnz. cbn [truthy] in Hhi. rewrite Hnz in Hhi.
    unfold le in Hhi. destruct (Rating r) as [v|]; [|discriminate].
    now exists v.
Qed.

Lemma truthy_Some (o : option number) :
  truthy o = true -> exists x, o = Some x /\ num_truthy x = true.
Proof. destruct o as [x|]; [|discriminate]. simpl. now exists x. Qed.

End RatingBounds.

(** C3, as the code has it.  A bound counts when it is given and is not
    zero, that is, when its truth value is true.  Every returned row carries
    the value of the coerced Rating column at the place of an input row of
    the same label; under a bound that counts that value is a number within
    the bound, as pandas compares them; and, with distinct labels, no input
    row whose rating failed coercion is returned when some bound counts. *)
Theorem filter_puzzles_rating_bounds
  {rules : ChessRules} {re : Regex} {nums : Numbers}
  (data : list raw_row) (themes : option string) (all_themes : bool)
  (min_rating max_rating : option number) (n : option Z)
  (log : list string) (out : list row) (r : row) :
  filter_puzzles data themes all_themes min_rating max_rating n
  = (log, Ok out) ->
  In r out ->
  (exists k r0,
     nth_error data k = Some r0 /\ idx r0 = idx r
     /\ nth_error (to_numeric (map Rating data)) k = Some (Rating r))
  /\ (forall lo, min_rating = Some lo -> num_truthy lo = true ->
        exists v, Rating r = Some v /\ num_ge v lo = true)
  /\ (forall hi, max_rating = Some hi -> num_truthy hi = true ->
        exists v, Rating r = Some v /\ num_le v hi = true)
  /\ (NoDup (map idx data) ->
      truthy min_rating || truthy max_rating = true ->
      forall k r0,
        nth_error data k = Some r0 ->
        nth_error (to_numeric (map Rating data)) k = Some None ->
        idx r0 <> idx r).
Proof.
  intros H Hin.
  destruct (filter_puzzles_in_range _ _ _ _ _ _ _ _ _ H Hin)
    as (Horigin & Hlo & Hhi).
  repeat split; try assumption.
  intros Hnd Hactive k r0 Hr0 Hnan Hlabel.
  destruct Horigin as (k1 & r1 & Hr1 & Hlabel1 & Hrating).
  assert (k1 = k) as ->
    by (eapply (NoDup_map_nth_error idx data); eauto; congruence).
  rewrite Hnan in Hrating. inversion Hrating as [Hnone].
  apply orb_true_iff in Hactive.
  destruct Hactive as [Ha|Ha]; apply truthy_Some in Ha;
    destruct Ha as (x & -> & Hx).
  - destruct (Hlo x eq_refl Hx) as (v & Hv & _). congruence.
  - destruct (Hhi x eq_refl Hx) as (v & Hv & _). congruence.
Qed.

Lemma filter_puzzles_rating_bounds_witness :
  let data := [Samples.fork_puzzle; Samples.unrated_puzzle] in
  let r := Samples.fork_puzzle_advanced in
  (exists k r0,
     nth_error data k = Some r0 /\ idx r0 = idx r
     /\ nth_error (to_numeric (map Rating data)) k = Some (Rating r))
  /\ (forall lo, Some 1000 = Some lo -> num_truthy lo = true ->
        exists v, Rating r = Some v /\ num_ge v lo = true)
  /\ (forall hi, Some 2000 = Some hi -> num_truthy hi = true ->
        exists v, Rating r = Some v /\ num_le v hi = true)
  /\ (NoDup (map idx data) ->
      truthy (Some 1000) || truthy (Some 2000) = true ->
      forall k r0,
        nth_error data k = Some r0 ->
        nth_error (to_numeric (map Rating data)) k = Some None ->
        idx r0 <> idx r).
Proof.
  refine (filter_puzzles_rating_bounds
            [Samples.fork_puzzle; Samples.unrated_puzzle] None true
            (Some 1000) (Some 2000) (Some 10) []
            [Samples.fork_puzzle_advanced] Samples.fork_puzzle_advanced
            _ _).
  - vm_compute. reflexivity.
  - simpl. left. reflexivity.
Defined.

(** C3, as stated, fails for a bound of zero: with [max_rating = 0] the
    bound is not applied, and a puzzle rated 1500 is returned. *)
Lemma rating_bound_zero_is_not_applied :
  exists out r,
    result (filter_puzzles [Samples.fork_puzzle] None true None (Some 0)
              (Some 10))
    = Ok out
    /\ In r out /\ Rating r = Some 1500 /\ ~ (1500 <= 0).
Proof.
  exists [Samples.fork_puzzle_advanced], Samples.fork_puzzle_advanced.
  split; [vm_compute; reflexivity|].
  split; [simpl; now left|]. split; [reflexivity|lia].
Qed.






Section Cap.

Context {rules : ChessRules} {re : Regex} {nums : Numbers}.

(** A turn of the loop ends well exactly when the row can be advanced. *)
Lemma advance_row_returns (table : list row) (r : row) :
  advanced_row r <> None ->
  exists out table', advance_row table r = (out, Ok table').
Proof.
  unfold advanced_row, advance_row.
  destruct (split_ws (Moves r)) as [|m1 [|m2 ms]];
    cbn [length Nat.leb nth]; try (intros _; now eexists _, _).
  destruct (Board (FEN r)) as [b|]; [|congruence].
  destruct (from_uci m1) as [mv|]; [|congruence].
  cbn [or_raise]. rewrite !bind_ret_l.
  destruct (push b mv) as [b'|]; [|congruence].
  intros _. now eexists _, _.
Qed.

Lemma advance_loop_returns (todo table : list row) :
  (forall r, In r todo -> advanced_row r <> None) ->
  exists out table', for_each advance_row todo table = (out, Ok table').
Proof.
  revert table. induction todo as [|r todo IH]; intros table Hall.
  - now exists [], table.
  - destruct (advance_row_returns table r) as (out1 & table1 & H1).
    { apply Hall. now left. }
    destruct (IH table1) as (out2 & table2 & H2).
    { intros x Hx. apply Hall. now right. }
    exists (out1 ++ out2)%list, table2.
    cbn [for_each]. rewrite H1. unfold bind. now rewrite H2.
Qed.

(** A run that returns went through the lines before the cap. *)
Lemma filter_puzzles_before_cap (data : list raw_row)
  (themes : option string) (all_themes : bool)
  (min_rating max_rating : option number) (n : option Z)
  (log : list string) (out : list row) :
  filter_puzzles data themes all_themes min_rating max_rating n
  = (log, Ok out) ->
  exists table,
    rows_before_cap data themes all_themes min_rating max_rating
    = (log, Ok table)
    /\ cap_stage n table = ([], Ok out).
Proof.
  intros H. pose proof (filter_puzzles_compiled _ _ _ _ _ _ _ _ H) as Hc.
  destruct (filter_puzzles_Ok _ _ _ _ _ _ _ _ H) as (table & Hadv & Hcap).
  exists table. rewrite rows_before_cap_eq, Hc. auto.
Qed.

End Cap.

(** C5.  With a positive cap [n], lines 41-44 raise nothing: once the lines
    before them have ended well, [filter_puzzles] returns the first [n] rows
    of the table.  And what [filter_puzzles] returns has
    min(n, number of passing rows) rows, which are the first rows of the
    passing rows, in their order: same labels, ratings and themes. *)
Theorem filter_puzzles_cap
  {rules : ChessRules} {re : Regex} {nums : Numbers}
  (data : list raw_row) (themes : option string) (all_themes : bool)
  (min_rating max_rating : option number) (n : Z) :
  0 < n ->
  let kept := passing data themes all_themes min_rating max_rating in
  let run :=
    filter_puzzles data themes all_themes min_rating max_rating (Some n) in
  (forall log table,
     rows_before_cap data themes all_themes min_rating max_rating
     = (log, Ok table) ->
     run = (log, Ok (firstn (Z.to_nat n) table)))
  /\ (forall log out, run = (log, Ok out) ->
        Z.of_nat (length out) = Z.min n (Z.of_nat (length kept))
        /\ map key out = firstn (Z.to_nat n) (map key kept)).
Proof.
  intros Hn kept run. split.
  - intros log table H. unfold run.
    rewrite filter_puzzles_split, H. cbn [bind].
    rewrite cap_stage_firstn by lia. unfold ret. now rewrite app_nil_r.
  - intros log out H.
    destruct (filter_puzzles_Ok _ _ _ _ _ _ _ _ H) as (table & Hadv & Hcap).
    fold kept in Hadv. apply advance_loop_key in Hadv.
    rewrite cap_stage_firstn in Hcap by lia. inversion Hcap; subst out.
    assert (Hlen : length table = length kept).
    { transitivity (length (map key table));
        [symmetry; apply length_map | rewrite Hadv; apply length_map]. }
    split.
    + rewrite length_firstn, Hlen. lia.
    + now rewrite <- firstn_map, Hadv.
Qed.

Lemma filter_puzzles_cap_witness :
  let data := [Samples.easy_puzzle; Samples.short_puzzle;
               Samples.unrated_puzzle] in
  let kept := passing data None true None None in
  let run := filter_puzzles data None true None None (Some 2) in
  (forall log table,
     rows_before_cap data None true None None = (log, Ok table) ->
     run = (log, Ok (firstn (Z.to_nat 2) table)))
  /\ (forall log out, run = (log, Ok out) ->
        Z.of_nat (length out) = Z.min 2 (Z.of_nat (length kept))
        /\ map key out = firstn (Z.to_nat 2) (map key kept)).
Proof.
  apply (filter_puzzles_cap
           [Samples.easy_puzzle; Samples.short_puzzle;
            Samples.unrated_puzzle] None true None None 2).
  lia.
Defined.

(** C8, as the code has it.  Without a cap, [filter_puzzles] raises: once
    the lines before line 41 have ended well, the comparison of line 41
    raises [TypeError].  With a cap of zero nothing is raised at line 41:
    once the lines before it have ended well, the table returned is empty.
    An exception raised before line 41 is the outcome of the call whatever
    the cap.  No case returns the rows uncapped. *)
Theorem filter_puzzles_cap_absent_or_zero
  {rules : ChessRules} {re : Regex} {nums : Numbers}
  (data : list raw_row) (themes : option string) (all_themes : bool)
  (min_rating max_rating : option number) :
  (exists e,
     result (filter_puzzles data themes all_themes min_rating max_rating
               None) = Raise e)
  /\ (forall log table,
        rows_before_cap data themes all_themes min_rating max_rating
        = (log, Ok table) ->
        filter_puzzles data themes all_themes min_rating max_rating None
        = (log, Raise TypeError)
        /\ filter_puzzles data themes all_themes min_rating max_rating
             (Some 0)
           = (log, Ok []))
  /\ (forall log e n,
        rows_before_cap data themes all_themes min_rating max_rating
        = (log, Raise e) ->
        filter_puzzles data themes all_themes min_rating max_rating n
        = (log, Raise e)).
Proof.
  assert (Hsplit := fun n =>
    filter_puzzles_split data themes all_themes min_rating max_rating n).
  destruct (rows_before_cap data themes all_themes min_rating max_rating)
    as [log0 [table0|e]].
  - split; [|split].
    + exists TypeError. now rewrite Hsplit.
    + intros log table H. inversion H; subst. rewrite !Hsplit.
      cbn [bind]. rewrite cap_stage_firstn by lia.
      unfold cap_stage, raise, ret. cbn [Z.to_nat firstn].
      now rewrite app_nil_r.
    + intros log e n H. discriminate.
  - split; [|split].
    + exists e. now rewrite Hsplit.
    + intros log table H. discriminate.
    + intros log e0 n H. inversion H; subst. now rewrite Hsplit.
Qed.

Lemma filter_puzzles_cap_absent_or_zero_witness :
  let data := [Samples.fork_puzzle] in
  (exists e,
     result (filter_puzzles data None true None None None) = Raise e)
  /\ (forall log table,
        rows_before_cap data None true None None = (log, Ok table) ->
        filter_puzzles data None true None None None = (log, Raise TypeError)
        /\ filter_puzzles data None true None None (Some 0) = (log, Ok []))
  /\ (forall log e n,
        rows_before_cap data None true None None = (log, Raise e) ->
        filter_puzzles data None true None None n = (log, Raise e)).
Proof.
  exact (filter_puzzles_cap_absent_or_zero [Samples.fork_puzzle] None true
           None None).
Defined.

(** C8, as stated, fails for a cap of zero: the call returns a table, the
    empty one. *)
Lemma cap_zero_returns_the_empty_table :
  filter_puzzles [Samples.fork_puzzle] None true None None (Some 0)
  = ([], Ok []).
Proof. vm_compute. reflexivity. Qed.

(** ** Properties of [translate_moves] and [black_or_white] *)

Section Loops.

Context {A S : Type} (body : S -> A -> Py S).

(** A loop over a list cut in two runs the first part, then the second. *)
Lemma for_each_app (l1 l2 : list A) (s s1 : S) (out : list string) :
  for_each body l1 s = (out, Ok s1) ->
  for_each body (l1 ++ l2) s
  = (let (out', r) := for_each body l2 s1 in ((out ++ out')%list, r)).
Proof.
  revert s out. induction l1 as [|a l1 IH]; intros s out H.
  - ret_inv H. simpl. now destruct (for_each body l2 s1).
  - cbn [for_each] in H. bind_inv H. cbn [app for_each].
    rewrite Hrun. cbn [bind]. rewrite (IH _ _ Hrest).
    destruct (for_each body l2 s1) as [out' r]. subst out.
    now rewrite app_assoc.
Qed.

End Loops.

Section Solutions.

Context {rules : ChessRules}.

(** A move the library rejects ends the turn of the loop with the
    exception, whatever was translated before. *)
Lemma translate_step_bad (sans : list string) (b : board) (uci : string) :
  (from_uci uci = None
   \/ exists mv, from_uci uci = Some mv
                 /\ (san b mv = None \/ push b mv = None)) ->
  translate_step (sans, b) uci
  = raise (match from_uci uci with
           | None => InvalidMoveError
           | Some _ => AssertionError
           end).
Proof.
  unfold translate_step. intros [H | (mv & H & Hbad)]; rewrite H.
  - reflexivity.
  - cbn [or_raise]. rewrite bind_ret_l.
    destruct (san b mv) as [a|]; [|reflexivity].
    destruct Hbad as [Hs|Hp]; [discriminate|].
    cbn [or_raise]. rewrite bind_ret_l, Hp. reflexivity.
Qed.

End Solutions.

(** C6.  The claim: an empty move sequence yields an empty output.  The
    code departs from it: [''.split(' ')] is the list of one empty string,
    which the library refuses as a move, so [InvalidMoveError] is raised.
    (The loop of [filter_puzzles] uses [split()], which gives no move at
    all.) *)
Theorem translate_moves_empty_string_raises {rules : ChessRules}
  (position : string) (b : board) :
  Board position = Some b ->
  from_uci "" = None ->
  split_sp "" = [""]
  /\ translate_moves "" position = raise InvalidMoveError.
Proof.
  intros Hb Hempty. split; [reflexivity|].
  unfold translate_moves. rewrite Hb. cbn [or_raise].
  rewrite bind_ret_l. cbn [split_sp split_by for_each].
  rewrite translate_step_bad by now left. now rewrite Hempty.
Qed.

Lemma translate_moves_empty_string_raises_witness :
  split_sp "" = [""]
  /\ translate_moves "" PlainChess.starting_fen = raise InvalidMoveError.
Proof.
  eapply (translate_moves_empty_string_raises (rules := PlainChess.rules)
            PlainChess.starting_fen).
  - reflexivity.
  - reflexivity.
Defined.

(** C7, as the code has it.  The script checks no move for legality; it
    fails where the library does.  When the moves before [bad] are
    translated and the library refuses [bad] on the board then reached, as a
    malformed move in [from_uci] or as a move from an empty square in [san]
    or [push], [translate_moves] raises that error: nothing is printed,
    nothing is returned, and the moves after [bad] play no part. *)
Theorem translate_moves_fails_at_bad_move {rules : ChessRules}
  (moves position : string) (b b' : board) (before after : list string)
  (bad : string) (sans : list string) :
  Board position = Some b ->
  split_sp moves = (before ++ bad :: after)%list ->
  for_each translate_step before ([], b) = ([], Ok (sans, b')) ->
  (from_uci bad = None
   \/ exists mv, from_uci bad = Some mv
                 /\ (san b' mv = None \/ push b' mv = None)) ->
  translate_moves moves position
  = ([], Raise (match from_uci bad with
                | None => InvalidMoveError
                | Some _ => AssertionError
                end)).
Proof.
  intros Hb Hsplit Hbefore Hbad.
  unfold translate_moves. rewrite Hb, Hsplit. cbn [or_raise].
  rewrite bind_ret_l, (for_each_app _ _ _ _ _ _ Hbefore).
  cbn [for_each]. now rewrite (translate_step_bad _ _ _ Hbad).
Qed.

Lemma translate_moves_fails_at_bad_move_witness :
  translate_moves "e2e4 e3e4 e7e5" PlainChess.starting_fen
  = ([], Raise (match PlainChess.parse_uci "e3e4" with
                | None => InvalidMoveError
                | Some _ => AssertionError
                end)).
Proof.
  eapply (translate_moves_fails_at_bad_move (rules := PlainChess.rules)
            "e2e4 e3e4 e7e5" PlainChess.starting_fen _ _ ["e2e4"] ["e7e5"]
            "e3e4" _).
  - reflexivity.
  - reflexivity.
  - reflexivity.
  - right. eexists. split; [reflexivity|]. left. reflexivity.
Defined.

(** C7, as stated, fails for a move that is illegal and yet starts from an
    occupied square: from the starting position, e2e5 takes the pawn of e2
    from the second rank to the fifth, which no pawn may do, and
    [translate_moves] returns the moves translated. *)
Lemma illegal_move_is_translated :
  translate_moves "e2e5 e7e6" PlainChess.starting_fen = ret "e5 e6"
  /\ exists position from to,
       Board PlainChess.starting_fen = Some position
       /\ from_uci "e2e5" = Some (from, to, None)
       /\ nth from (PlainChess.squares position) None = Some "P"%char
       /\ PlainChess.rank_of from = 2%nat
       /\ PlainChess.rank_of to = 5%nat.
Proof.
  split; [vm_compute; reflexivity|].
  eexists _, _, _. repeat split; vm_compute; reflexivity.
Qed.

(** C9.  For a position the library accepts, [black_or_white] returns, with
    [answer] on, the white circle exactly when White is to move and the black
    circle exactly when Black is; with [answer] off, the dots exactly when
    Black is to move and the empty string exactly when White is. *)
Theorem black_or_white_by_turn {rules : ChessRules}
  (position : string) (b : board) :
  Board position = Some b ->
  (black_or_white position true = ret "\whitecircle" <-> turn b = true)
  /\ (black_or_white position true = ret "\blackcircle" <-> turn b = false)
  /\ (black_or_white position false = ret "... " <-> turn b = false)
  /\ (black_or_white position false = ret "" <-> turn b = true).
Proof.
  intros Hb. unfold black_or_white. rewrite Hb. cbn [or_raise].
  rewrite !bind_ret_l. unfold ret.
  destruct (turn b); repeat split; intros H;
    try reflexivity; try discriminate.
Qed.

Lemma black_or_white_by_turn_witness :
  (black_or_white Samples.after_e4 true = ret "\whitecircle"
   <-> false = true)
  /\ (black_or_white Samples.after_e4 true = ret "\blackcircle"
      <-> false = false)
  /\ (black_or_white Samples.after_e4 false = ret "... " <-> false = false)
  /\ (black_or_white Samples.after_e4 false = ret "" <-> false = true).
Proof.
  eapply (black_or_white_by_turn (rules := PlainChess.rules)
            Samples.after_e4
            (PlainChess.mkPosition _ false _ _ _ _)).
  vm_compute. reflexivity.
Defined.

(** ** Properties of [generate_text] and [main] *)

Section Rendering.

Context {rules : ChessRules} {re : Regex} {nums : Numbers}.

(** A loop whose turns only append to the text only appends to it. *)
Lemma for_each_appends {X : Type} (body : string -> X -> Py string) :
  (forall text x out text',
      body text x = (out, Ok text') -> exists more, text' = text ++ more) ->
  forall l text out text',
    for_each body l text = (out, Ok text') ->
    exists more, text' = text ++ more.
Proof.
  intros Hbody. induction l as [|x l IH]; intros text out text' H.
  - ret_inv H. exists "". clear. induction text'; simpl; congruence.
  - cbn [for_each] in H. bind_inv H.
    destruct (Hbody _ _ _ _ Hrun) as [more1 ->].
    destruct (IH _ _ _ Hrest) as [more2 ->].
    exists (more1 ++ more2). apply append_assoc.
Qed.

Lemma diagram_step_appends (text : string) (p : Z * row)
  (out : list string) (text' : string) :
  diagram_step text p = (out, Ok text') -> exists more, text' = text ++ more.
Proof.
  unfold diagram_step. destruct p as [i r]. intros H. bind_inv H.
  ret_inv Hrest.
  destruct (i mod 2 =? 1), (i mod 6 =? 0), (i mod 2 =? 0);
    rewrite ?append_assoc; eexists; reflexivity.
Qed.

Lemma solution_step_appends (text : string) (p : Z * row)
  (out : list string) (text' : string) :
  solution_step text p = (out, Ok text') -> exists more, text' = text ++ more.
Proof.
  unfold solution_step. destruct p as [i r]. intros H. bind_inv H.
  bind_inv Hrest. ret_inv Hrest0. eexists; reflexivity.
Qed.

(** The document starts with the preamble and the heading, in which the
    parameters [n], [themes], [min_rating] and [max_rating] of
    [generate_text] are printed in this order. *)
Lemma generate_text_heading (puzzles : list row)
  (themes n min_rating max_rating : value) (out : list string)
  (text : string) :
  generate_text puzzles themes n min_rating max_rating = (out, Ok text) ->
  exists rest,
    text = preamble ++ section_heading themes n min_rating max_rating
           ++ rest.
Proof.
  unfold generate_text. intros H. bind_inv H. bind_inv Hrest. ret_inv Hrest0.
  destruct (for_each_appends _ diagram_step_appends _ _ _ _ Hrun)
    as [more1 ->].
  destruct (for_each_appends _ solution_step_appends _ _ _ _ Hrun0)
    as [more2 ->].
  rewrite !append_assoc. eexists; reflexivity.
Qed.

(** An optional value of the configuration is printed as itself, or as
    [None]. *)
Lemma str_of_option {X : Type} (inj : X -> value) (o : option X) :
  str (of_option inj o) = str_opt (fun x => str (inj x)) o.
Proof. now destruct o. Qed.

End Rendering.

(** C10.  [main] passes [min_rating], [max_rating] and [n] where
    [generate_text] takes [n], [min_rating] and [max_rating].  So, whenever
    [main] writes a document, the heading shows the configured minimum rating
    as the number of puzzles, the configured maximum rating as the lower end
    of the range, and the configured cap as its upper end. *)
Theorem main_heading_slots
  {rules : ChessRules} {re : Regex} {nums : Numbers}
  (cfg : config) (puzzles : list raw_row) (ncols : Z) (log : list string)
  (text : string) :
  main cfg puzzles ncols = (log, Ok text) ->
  (exists filtered_puzzles out,
     generate_text filtered_puzzles (of_option VStr (cfg_themes cfg))
       (of_option VNumber (cfg_min_rating cfg))
       (of_option VNumber (cfg_max_rating cfg))
       (of_option VInt (cfg_n cfg)) = (out, Ok text))
  /\ exists rest,
       text = preamble
              ++ "{\centering \section*{The Lichess Book of "
              ++ str_opt num_str (cfg_min_rating cfg)
              ++ " Puzzles covering "
              ++ str_opt (fun s => s) (cfg_themes cfg)
              ++ " theme(s) from "
              ++ str_opt num_str (cfg_max_rating cfg)
              ++ " to "
              ++ str_opt str_int (cfg_n cfg)
              ++ "}}" ++ rest.
Proof.
  unfold main. intros H. bind_inv H. bind_inv Hrest. bind_inv Hrest0.
  match goal with
  | Hgen : generate_text _ _ _ _ _ = _ |- _ =>
      split; [eexists _, _; exact Hgen|];
      destruct (generate_text_heading _ _ _ _ _ _ _ Hgen) as [rest ->]
  end.
  exists rest. unfold section_heading. rewrite !str_of_option.
  now rewrite !append_assoc.
Qed.

Lemma main_heading_slots_witness :
  let cfg := mkConfig (Some 1000) (Some 2000) (Some "fork") (Some true)
               (Some 10) in
  let text :=
    match result (main cfg [Samples.fork_puzzle] 10) with
    | Ok text => text
    | Raise _ => ""
    end in
  (exists filtered_puzzles out,
     generate_text filtered_puzzles (of_option VStr (cfg_themes cfg))
       (of_option VNumber (cfg_min_rating cfg))
       (of_option VNumber (cfg_max_rating cfg))
       (of_option VInt (cfg_n cfg)) = (out, Ok text))
  /\ exists rest,
       text = preamble
              ++ "{\centering \section*{The Lichess Book of "
              ++ "1000" ++ " Puzzles covering " ++ "fork"
              ++ " theme(s) from " ++ "2000" ++ " to " ++ "10"
              ++ "}}" ++ rest.
Proof.
  cbv zeta.
  apply (main_heading_slots
           (mkConfig (nums := Integers.numbers) (Some 1000) (Some 2000)
              (Some "fork") (Some true) (Some 10))
           [Samples.fork_puzzle] 10 ["(1, 10)"; "(1, 10)"]).
  vm_compute. reflexivity.
Defined.

(** * Further properties *)

(** ** What [filter_puzzles] keeps *)

Section Kept.

Context {rules : ChessRules} {re : Regex} {nums : Numbers}.

Lemma subseq_firstn_filter {X K : Type} (f : X -> K) (p : X -> bool)
  (l : list X) (k : nat) :
  subseq (firstn k (map f (filter p l))) (map f l).
Proof.
  revert k. induction l as [|a l IH]; intros k; simpl.
  - rewrite firstn_nil. constructor.
  - destruct (p a); simpl.
    + destruct k as [|k]; simpl; constructor. apply IH.
    + constructor. apply IH.
Qed.

(** Whatever the cap, the rows returned are the first [k] rows of the
    table, for some [k]. *)
Lemma cap_stage_prefix (n : option Z) (data out : list row)
  (log : list string) :
  cap_stage n data = (log, Ok out) -> exists k, out = firstn k data.
Proof.
  unfold cap_stage. destruct n as [n|]; [|discriminate].
  destruct (Z.of_nat (length data) <=? n); intros H; unfold ret in H;
    injection H as _ <-.
  - exists (length data). now rewrite firstn_all.
  - unfold iloc_head. destruct (0 <=? n); eexists; reflexivity.
Qed.

Lemma map_idx_key {R : Type} (l : list (row_of R)) :
  map idx l = map (fun k => fst (fst k)) (map key l).
Proof. rewrite map_map. reflexivity. Qed.

(** A tag without special character that is found occurs in the text. *)
Lemma plain_found (tag field : string) (p : pattern) :
  plain tag = true -> re_compile tag = Some p ->
  re_search p field = true ->
  exists before after, field = before ++ tag ++ after.
Proof.
  intros Hplain Hp Hfound.
  destruct (re_plain tag Hplain) as (q & Hq & Hs).
  rewrite Hq in Hp. inversion Hp; subst.
  rewrite Hs in Hfound. now apply contains_iff.
Qed.

End Kept.

(** X1.  The labels of the rows returned are labels of the input table,
    each kept at most as often as it occurs there and in the order of the
    input: no row is invented, repeated or moved. *)
Theorem filter_puzzles_keeps_input_order
  {rules : ChessRules} {re : Regex} {nums : Numbers}
  (data : list raw_row) (themes : option string) (all_themes : bool)
  (min_rating max_rating : option number) (n : option Z)
  (log : list string) (out : list row) :
  filter_puzzles data themes all_themes min_rating max_rating n
  = (log, Ok out) ->
  subseq (map idx out) (map idx data).
Proof.
  intros H.
  destruct (filter_puzzles_Ok _ _ _ _ _ _ _ _ H) as (table & Hadv & Hcap).
  apply advance_loop_key in Hadv.
  destruct (cap_stage_prefix _ _ _ _ Hcap) as [k ->].
  rewrite map_idx_key, <- firstn_map, Hadv, firstn_map, <- map_idx_key.
  rewrite <- firstn_map. unfold passing.
  rewrite <- (coerce_rating_idx data).
  apply subseq_firstn_filter.
Qed.

Lemma filter_puzzles_keeps_input_order_witness :
  subseq (map idx [Samples.short_puzzle_numeric])
    (map idx [Samples.easy_puzzle; Samples.short_puzzle]).
Proof.
  apply (filter_puzzles_keeps_input_order
           [Samples.easy_puzzle; Samples.short_puzzle] None true
           (Some 1000) None (Some 10)
           ["Skipping row 2: Insufficient moves"]).
  vm_compute. reflexivity.
Defined.

(** X2.  In conjunctive mode, with a theme string that is not empty, every
    tag of the string, taken as a regular expression, is found in the Themes
    field of every row returned, and a tag without special character occurs
    in it; a row without Themes field is never returned. *)
Theorem filter_puzzles_conjunctive_tags
  {rules : ChessRules} {re : Regex} {nums : Numbers}
  (data : list raw_row) (s : string)
  (min_rating max_rating : option number) (n : option Z)
  (log : list string) (out : list row) (r : row) (tag : string) :
  filter_puzzles data (Some s) true min_rating max_rating n = (log, Ok out) ->
  s <> "" ->
  In r out ->
  In tag (split_sp s) ->
  exists field p,
    Themes r = Some field
    /\ re_compile tag = Some p
    /\ re_search p field = true
    /\ (plain tag = true ->
        exists before after, field = before ++ tag ++ after).
Proof.
  intros H Hs Hin Htag.
  destruct (filter_puzzles_key _ _ _ _ _ _ _ _ _ H Hin) as (r1 & Hr1 & Hk).
  destruct (passing_origin _ _ _ _ _ _ Hr1) as (k & r0 & _ & _ & _ & _ & Hok).
  destruct (themes_ok_conjunctive s r1 tag) as (field & p & Hf & Hp & Hfound);
    auto.
  - destruct s; [contradiction|reflexivity].
  - unfold key in Hk. injection Hk as Hi Hrat Hth.
    exists field, p. repeat split; try congruence.
    intros Hplain. eapply plain_found; eauto.
Qed.

Lemma filter_puzzles_conjunctive_tags_witness :
  exists field p,
    Themes Samples.fork_puzzle_advanced = Some field
    /\ re_compile "endgame" = Some p
    /\ re_search p field = true
    /\ (plain "endgame" = true ->
        exists before after, field = before ++ "endgame" ++ after).
Proof.
  apply (filter_puzzles_conjunctive_tags
           [Samples.fork_puzzle; Samples.easy_puzzle] "fork endgame"
           None None (Some 10) [] [Samples.fork_puzzle_advanced]).
  - vm_compute. reflexivity.
  - discriminate.
  - left. reflexivity.
  - right. left. reflexivity.
Defined.

(** X3.  In disjunctive mode the tags are compiled and then play no part:
    when every tag of the theme string is a regular expression, the call
    prints and returns what it does without themes. *)
Theorem filter_puzzles_disjunctive_ignores_themes
  {rules : ChessRules} {re : Regex} {nums : Numbers}
  (data : list raw_row) (s : string)
  (min_rating max_rating : option number) (n : option Z) :
  (forall tag, In tag (split_sp s) -> re_compile tag <> None) ->
  filter_puzzles data (Some s) false min_rating max_rating n
  = filter_puzzles data None false min_rating max_rating n.
Proof.
  intros Hall. rewrite !filter_puzzles_eq.
  assert (Hc : themes_compile (Some s) = true).
  { unfold themes_compile. destruct (nonempty s); [|reflexivity].
    apply forallb_forall. intros tag Htag. unfold compiles.
    specialize (Hall tag Htag). now destruct (re_compile tag). }
  rewrite Hc. cbn [themes_compile].
  replace (passing data (Some s) false min_rating max_rating)
    with (passing data None false min_rating max_rating); [reflexivity|].
  unfold passing. apply filter_ext. intros r. f_equal.
  unfold themes_ok. now destruct (nonempty s).
Qed.

Lemma filter_puzzles_disjunctive_ignores_themes_witness :
  filter_puzzles [Samples.fork_puzzle; Samples.short_puzzle]
    (Some "mate fork") false None None (Some 10)
  = filter_puzzles [Samples.fork_puzzle; Samples.short_puzzle] None false
      None None (Some 10).
Proof.
  apply (filter_puzzles_disjunctive_ignores_themes
           [Samples.fork_puzzle; Samples.short_puzzle] "mate fork" None None
           (Some 10)).
  intros tag [<-|[<-|[]]]; vm_compute; discriminate.
Defined.

(** X4.  Completeness of the filters.  When the call returns and the cap is
    at least the number of passing rows, an input row is returned (under its
    label, with its coerced rating and its themes) if its coerced rating is
    a number that pandas finds within the bounds given and, in conjunctive
    mode, every tag is found in its Themes field. *)
Theorem filter_puzzles_returns_matching_row
  {rules : ChessRules} {re : Regex} {nums : Numbers}
  (data : list raw_row) (themes : option string) (all_themes : bool)
  (min_rating max_rating : option number) (n : Z) (log : list string)
  (out : list row) (k : nat) (r0 : raw_row) (v : number) :
  filter_puzzles data themes all_themes min_rating max_rating (Some n)
  = (log, Ok out) ->
  Z.of_nat (length (passing data themes all_themes min_rating max_rating))
  <= n ->
  nth_error data k = Some r0 ->
  nth_error (to_numeric (map Rating data)) k = Some (Some v) ->
  (forall lo, min_rating = Some lo -> num_ge v lo = true) ->
  (forall hi, max_rating = Some hi -> num_le v hi = true) ->
  (all_themes = true ->
   forall s tag, themes = Some s -> In tag (split_sp s) ->
     exists field p,
       Themes r0 = Some field /\ re_compile tag = Some p
       /\ re_search p field = true) ->
  exists r, In r out /\ key r = (idx r0, Some v, Themes r0).
Proof.
  intros H Hcap Hin Hnum Hlo Hhi Htags.
  destruct (filter_puzzles_Ok _ _ _ _ _ _ _ _ H) as (table & Hadv & Hc).
  apply advance_loop_key in Hadv.
  assert (Hlen : length table
                 = length (passing data themes all_themes min_rating
                             max_rating)).
  { transitivity (length (map key table));
      [symmetry; apply length_map | rewrite Hadv; apply length_map]. }
  unfold cap_stage in Hc. rewrite Hlen in Hc.
  destruct (Z.leb_spec
              (Z.of_nat (length (passing data themes all_themes min_rating
                                   max_rating))) n); [|lia].
  ret_inv Hc.
  assert (Hpass : In (set_Rating (Some v) r0)
                    (passing data themes all_themes min_rating max_rating)).
  { unfold passing. rewrite filter_In. split.
    - unfold coerce_rating. apply in_map_iff. exists (r0, Some v).
      split; [reflexivity|]. apply combine_nth_error. now exists k.
    - apply andb_true_iff. split.
      + unfold in_range. cbn [Rating set_Rating ge le].
        apply andb_true_iff. split.
        * destruct min_rating as [lo|]; [|reflexivity].
          destruct (truthy (Some lo)); [|reflexivity]. auto.
        * destruct max_rating as [hi|]; [|reflexivity].
          destruct (truthy (Some hi)); [|reflexivity]. auto.
      + unfold themes_ok. destruct themes as [s|]; [|reflexivity].
        destruct (nonempty s); [|reflexivity].
        destruct all_themes; [|reflexivity].
        apply forallb_forall. intros tag Htag.
        destruct (Htags eq_refl s tag eq_refl Htag)
          as (field & p & Hf & Hp & Hfound).
        unfold has_theme. cbn [Themes set_Rating]. now rewrite Hf, Hp. }
  apply (in_map key) in Hpass. rewrite <- Hadv in Hpass.
  apply in_map_iff in Hpass. destruct Hpass as (r & Hk & Hr).
  exists r. split; [assumption|]. rewrite Hk. reflexivity.
Qed.

Lemma filter_puzzles_returns_matching_row_witness :
  exists r, In r [Samples.fork_puzzle_advanced]
            /\ key r = (idx Samples.fork_puzzle, Some 1500,
                        Themes Samples.fork_puzzle).
Proof.
  apply (filter_puzzles_returns_matching_row
           [Samples.fork_puzzle; Samples.easy_puzzle] (Some "fork") true
           (Some 1000) (Some 2000) 10 [] [Samples.fork_puzzle_advanced] 0).
  - vm_compute. reflexivity.
  - vm_compute. discriminate.
  - reflexivity.
  - reflexivity.
  - intros lo H. inversion H. reflexivity.
  - intros hi H. inversion H. reflexivity.
  - intros _ s tag Hs Htag. inversion Hs; subst.
    destruct Htag as [<-|[]]. exists "fork endgame", "fork".
    repeat split.
Defined.

(** ** What [filter_puzzles] prints and raises *)

Section Outcomes.

Context {rules : ChessRules} {re : Regex} {nums : Numbers}.

Lemma short_row_spec (r : row) :
  short_row r = true <-> (length (split_ws (Moves r)) < 2)%nat.
Proof. unfold short_row. apply Nat.ltb_lt. Qed.

(** A row can be advanced unless it has two moves or more and the library
    refuses its position, its first move, or to play that move. *)
Lemma advanced_row_defined (r : row) :
  advanced_row r <> None <->
  (forall m1 m2 ms, split_ws (Moves r) = m1 :: m2 :: ms ->
     exists b mv b',
       Board (FEN r) = Some b /\ from_uci m1 = Some mv
       /\ push b mv = Some b').
Proof.
  unfold advanced_row.
  destruct (split_ws (Moves r)) as [|m1 [|m2 ms]].
  - split; [intros _ ? ? ? H; discriminate | intros _; discriminate].
  - split; [intros _ ? ? ? H; discriminate | intros _; discriminate].
  - split.
    + intros H a b c E. inversion E; subst.
      destruct (Board (FEN r)) as [b0|]; [|congruence].
      destruct (from_uci a) as [mv|]; [|congruence].
      destruct (push b0 mv) as [b'|] eqn:Hp; [|congruence].
      now exists b0, mv, b'.
    + intros H. destruct (H m1 m2 ms eq_refl) as (b & mv & b' & -> & -> & ->).
      discriminate.
Qed.

(** The three ways a turn of the loop can end. *)
Lemma advance_row_cases (table : list row) (r : row) :
  (short_row r = true
   /\ advance_row table r = ([skip_message (idx r)], Ok table))
  \/ (short_row r = false /\ advanced_row r <> None
      /\ exists table', advance_row table r = ([], Ok table'))
  \/ (short_row r = false /\ advanced_row r = None
      /\ advance_row table r = ([], Raise (advance_error r))).
Proof.
  unfold short_row, advanced_row, advance_row, advance_error.
  destruct (split_ws (Moves r)) as [|m1 [|m2 ms]];
    cbn [length Nat.leb Nat.ltb nth skipn]; try (left; split; reflexivity).
  right. destruct (Board (FEN r)) as [b|] eqn:Hb; cbn [or_raise].
  - rewrite bind_ret_l.
    destruct (from_uci m1) as [mv|] eqn:Hu; cbn [or_raise].
    + rewrite bind_ret_l.
      destruct (push b mv) as [b'|] eqn:Hp; cbn [or_raise].
      * left. split; [reflexivity|]. split; [discriminate|].
        rewrite bind_ret_l. eexists. reflexivity.
      * right. repeat split.
    + right. repeat split.
  - right. repeat split.
Qed.

(** A loop that ends well went through rows that can all be advanced, and
    printed the diagnostics of the short ones. *)
Lemma advance_loop_Ok (todo table table' : list row) (log : list string) :
  for_each advance_row todo table = (log, Ok table') ->
  log = diagnostics todo /\ forall r, In r todo -> advanced_row r <> None.
Proof.
  revert table log. induction todo as [|r todo IH]; intros table log H.
  - ret_inv H. split; [reflexivity|]. intros r [].
  - cbn [for_each] in H. bind_inv H.
    destruct (IH _ _ Hrest) as [-> Hall]. subst log.
    unfold diagnostics. cbn [filter].
    destruct (advance_row_cases table r)
      as [[Hs Hr] | [(Hs & Hd & t1 & Hr) | (Hs & Hd & Hr)]];
      rewrite Hr in Hrun; inversion Hrun; subst; rewrite Hs.
    + split; [reflexivity|]. intros x [<-|Hx]; auto.
      unfold advanced_row. apply short_row_spec in Hs.
      destruct (split_ws (Moves r)) as [|m1 [|m2 ms]];
        try discriminate. simpl in Hs. lia.
    + split; [reflexivity|]. intros x [<-|Hx]; auto.
Qed.

(** A loop that raises does so at the first row that cannot be advanced,
    after the diagnostics of the short rows before it. *)
Lemma advance_loop_Raise (before after table : list row) (r : row) :
  (forall x, In x before -> advanced_row x <> None) ->
  advanced_row r = None ->
  for_each advance_row (before ++ r :: after)%list table
  = (diagnostics before, Raise (advance_error r)).
Proof.
  intros Hall Hbad.
  destruct (advance_loop_returns before table Hall) as (log & t1 & H1).
  rewrite (for_each_app _ _ _ _ _ _ H1). cbn [for_each].
  destruct (advance_loop_Ok _ _ _ _ H1) as [-> _].
  destruct (advance_row_cases t1 r)
    as [[Hs Hr] | [(Hs & Hd & t2 & Hr) | (Hs & Hd & Hr)]].
  - exfalso. unfold advanced_row in Hbad. apply short_row_spec in Hs.
    destruct (split_ws (Moves r)) as [|m1 [|m2 ms]];
      try discriminate. simpl in Hs. lia.
  - contradiction.
  - rewrite Hr. cbn [bind]. now rewrite app_nil_r.
Qed.

End Outcomes.

(** X5.  When [filter_puzzles] returns, it has printed one line per passing
    row with fewer than two moves, in the order of the rows and whether or
    not the cap retains the row, and nothing else. *)
Theorem filter_puzzles_stdout
  {rules : ChessRules} {re : Regex} {nums : Numbers}
  (data : list raw_row) (themes : option string) (all_themes : bool)
  (min_rating max_rating : option number) (n : option Z)
  (log : list string) (out : list row) :
  filter_puzzles data themes all_themes min_rating max_rating n
  = (log, Ok out) ->
  log = map (fun r => "Skipping row " ++ str_int (idx r + 1)
                      ++ ": Insufficient moves")
          (filter (fun r => (length (split_ws (Moves r)) <? 2)%nat)
             (passing data themes all_themes min_rating max_rating)).
Proof.
  intros H.
  destruct (filter_puzzles_Ok _ _ _ _ _ _ _ _ H) as (table & Hadv & _).
  now destruct (advance_loop_Ok _ _ _ _ Hadv) as [-> _].
Qed.

Lemma filter_puzzles_stdout_witness :
  ["Skipping row 2: Insufficient moves"]
  = map (fun r => "Skipping row " ++ str_int (idx r + 1)
                  ++ ": Insufficient moves")
      (filter (fun r => (length (split_ws (Moves r)) <? 2)%nat)
         (passing [Samples.easy_puzzle; Samples.short_puzzle] None true
            None None)).
Proof.
  apply (filter_puzzles_stdout
           [Samples.easy_puzzle; Samples.short_puzzle] None true None None
           (Some 1) ["Skipping row 2: Insufficient moves"]
           [mkRow 0 Samples.after_e4 (Some 500) (Some "opening") "e7e5"]).
  vm_compute. reflexivity.
Defined.

(** X6.  [filter_puzzles] returns only if every tag it compiled is a regular
    expression and, for every passing row of two moves or more, the library
    reads the position, reads the first move and plays it.  Rows beyond the
    cap count as well. *)
Theorem filter_puzzles_returns_only_if
  {rules : ChessRules} {re : Regex} {nums : Numbers}
  (data : list raw_row) (themes : option string) (all_themes : bool)
  (min_rating max_rating : option number) (n : option Z)
  (log : list string) (out : list row) :
  filter_puzzles data themes all_themes min_rating max_rating n
  = (log, Ok out) ->
  (forall s tag, themes = Some s -> s <> "" -> In tag (split_sp s) ->
     re_compile tag <> None)
  /\ (forall r m1 m2 ms,
        In r (passing data themes all_themes min_rating max_rating) ->
        split_ws (Moves r) = m1 :: m2 :: ms ->
        exists b mv b',
          Board (FEN r) = Some b /\ from_uci m1 = Some mv
          /\ push b mv = Some b').
Proof.
  intros H. split.
  - intros s tag -> Hs Htag.
    pose proof (filter_puzzles_compiled _ _ _ _ _ _ _ _ H) as Hc.
    unfold themes_compile in Hc.
    destruct s; [contradiction|]. cbn [nonempty] in Hc.
    rewrite forallb_forall in Hc. specialize (Hc tag Htag).
    unfold compiles in Hc. now destruct (re_compile tag).
  - intros r m1 m2 ms Hr Hm.
    destruct (filter_puzzles_Ok _ _ _ _ _ _ _ _ H) as (table & Hadv & _).
    destruct (advance_loop_Ok _ _ _ _ Hadv) as [_ Hall].
    exact (proj1 (advanced_row_defined r) (Hall r Hr) m1 m2 ms Hm).
Qed.

Lemma filter_puzzles_returns_only_if_witness :
  let data := [Samples.fork_puzzle] in
  (forall s tag, Some "fork" = Some s -> s <> "" -> In tag (split_sp s) ->
     re_compile tag <> None)
  /\ (forall r m1 m2 ms,
        In r (passing data (Some "fork") true None None) ->
        split_ws (Moves r) = m1 :: m2 :: ms ->
        exists b mv b',
          Board (FEN r) = Some b /\ from_uci m1 = Some mv
          /\ push b mv = Some b').
Proof.
  apply (filter_puzzles_returns_only_if [Samples.fork_puzzle] (Some "fork")
           true None None (Some 10) [] [Samples.fork_puzzle_advanced]).
  vm_compute. reflexivity.
Defined.

(** X7.  Once the tags are compiled, the run stops at the first passing row
    of two moves or more that the library refuses, even when the cap would
    not retain that row: with [ValueError] if the position is not read, else
    with [InvalidMoveError] if the first move is not read, else with
    [AssertionError] as the move is not played.  The diagnostics of the
    short rows before it are already printed; nothing is returned. *)
Theorem filter_puzzles_stops_at_bad_row
  {rules : ChessRules} {re : Regex} {nums : Numbers}
  (data : list raw_row) (themes : option string) (all_themes : bool)
  (min_rating max_rating : option number) (n : option Z)
  (before after : list row) (r : row)
  (m1 m2 : string) (ms : list string) :
  (forall s tag, themes = Some s -> In tag (split_sp s) ->
     re_compile tag <> None) ->
  passing data themes all_themes min_rating max_rating
  = (before ++ r :: after)%list ->
  (forall x m1 m2 ms, In x before -> split_ws (Moves x) = m1 :: m2 :: ms ->
     exists b mv b',
       Board (FEN x) = Some b /\ from_uci m1 = Some mv
       /\ push b mv = Some b') ->
  split_ws (Moves r) = m1 :: m2 :: ms ->
  (Board (FEN r) = None
   \/ from_uci m1 = None
   \/ exists b mv,
        Board (FEN r) = Some b /\ from_uci m1 = Some mv
        /\ push b mv = None) ->
  filter_puzzles data themes all_themes min_rating max_rating n
  = (map (fun x => "Skipping row " ++ str_int (idx x + 1)
                   ++ ": Insufficient moves")
       (filter (fun x => (length (split_ws (Moves x)) <? 2)%nat) before),
     Raise (match Board (FEN r) with
            | None => ValueError
            | Some _ =>
                match from_uci m1 with
                | None => InvalidMoveError
                | Some _ => AssertionError
                end
            end)).
Proof.
  intros Htags Hpass Hall Hm Hbad.
  assert (Hc : themes_compile themes = true).
  { unfold themes_compile. destruct themes as [s|]; [|reflexivity].
    destruct (nonempty s); [|reflexivity].
    apply forallb_forall. intros tag Htag. unfold compiles.
    specialize (Htags s tag eq_refl Htag). now destruct (re_compile tag). }
  rewrite filter_puzzles_eq, Hc. unfold advance_stage. rewrite Hpass at 1.
  rewrite advance_loop_Raise.
  - cbn [bind]. unfold advance_error. rewrite Hm. reflexivity.
  - intros x Hx. apply advanced_row_defined. intros a b c. now apply Hall.
  - unfold advanced_row. rewrite Hm.
    destruct Hbad as [-> | [Hu | (b & mv & -> & -> & ->)]]; try reflexivity.
    rewrite Hu. now destruct (Board (FEN r)).
Qed.

Lemma filter_puzzles_stops_at_bad_row_witness :
  filter_puzzles
    [Samples.short_puzzle; Samples.empty_square_puzzle; Samples.fork_puzzle]
    None true None None (Some 1)
  = (map (fun x => "Skipping row " ++ str_int (idx x + 1)
                   ++ ": Insufficient moves")
       (filter (fun x => (length (split_ws (Moves x)) <? 2)%nat)
          [Samples.short_puzzle_numeric]),
     Raise (match Board (FEN Samples.empty_square_puzzle) with
            | None => ValueError
            | Some _ =>
                match from_uci "e3e4" with
                | None => InvalidMoveError
                | Some _ => AssertionError
                end
            end)).
Proof.
  apply (filter_puzzles_stops_at_bad_row
           [Samples.short_puzzle; Samples.empty_square_puzzle;
            Samples.fork_puzzle]
           None true None None (Some 1)
           [Samples.short_puzzle_numeric]
           [mkRow 0 PlainChess.starting_fen (Some 1500)
              (Some "fork endgame") "e2e4 e7e5 g1f3"]
           (mkRow 3 PlainChess.starting_fen (Some 1500) None "e3e4 e7e5")
           "e3e4" "e7e5" []).
  - intros s tag H. discriminate.
  - vm_compute. reflexivity.
  - intros x a b c [<-|[]] H. vm_compute in H. discriminate.
  - vm_compute. reflexivity.
  - right. right. eexists _, _. repeat split; vm_compute; reflexivity.
Defined.

(** X9.  A negative cap counts from the end, as Python slices do: the last [-n]
    passing rows are left out, and nothing is returned when there are no
    more than [-n] of them. *)
Theorem filter_puzzles_negative_cap
  {rules : ChessRules} {re : Regex} {nums : Numbers}
  (data : list raw_row) (themes : option string) (all_themes : bool)
  (min_rating max_rating : option number) (n : Z) (log : list string)
  (out : list row) :
  n < 0 ->
  filter_puzzles data themes all_themes min_rating max_rating (Some n)
  = (log, Ok out) ->
  let kept := passing data themes all_themes min_rating max_rating in
  map key out = firstn (length kept - Z.to_nat (- n)) (map key kept)
  /\ Z.of_nat (length out) = Z.max 0 (Z.of_nat (length kept) + n).
Proof.
  intros Hn H kept.
  destruct (filter_puzzles_Ok _ _ _ _ _ _ _ _ H) as (table & Hadv & Hcap).
  fold kept in Hadv. apply advance_loop_key in Hadv.
  assert (Hlen : length table = length kept).
  { transitivity (length (map key table));
      [symmetry; apply length_map | rewrite Hadv; apply length_map]. }
  unfold cap_stage, iloc_head in Hcap.
  destruct (Z.leb_spec (Z.of_nat (length table)) n); [lia|].
  destruct (Z.leb_spec 0 n); [lia|].
  unfold ret in Hcap. injection Hcap as <-. split.
  - now rewrite <- firstn_map, Hadv, Hlen.
  - rewrite length_firstn, Hlen. lia.
Qed.

Lemma filter_puzzles_negative_cap_witness :
  let kept :=
    passing [Samples.easy_puzzle; Samples.short_puzzle] None true None None
  in
  map key [mkRow 0 Samples.after_e4 (Some 500) (Some "opening") "e7e5"]
  = firstn (length kept - Z.to_nat (- (-1))) (map key kept)
  /\ Z.of_nat 1 = Z.max 0 (Z.of_nat (length kept) + -1).
Proof.
  apply (filter_puzzles_negative_cap
           [Samples.easy_puzzle; Samples.short_puzzle] None true None None
           (-1) ["Skipping row 2: Insufficient moves"]
           [mkRow 0 Samples.after_e4 (Some 500) (Some "opening") "e7e5"]).
  - lia.
  - vm_compute. reflexivity.
Defined.

(** ** From [filter_puzzles] to [translate_moves] *)

Section Tokens.

Lemma free_of_weaken (p q : ascii -> bool) (w : string) :
  (forall c, q c = true -> p c = true) ->
  free_of p w = true -> free_of q w = true.
Proof.
  intros Hpq. induction w as [|c w IH]; simpl; [reflexivity|].
  rewrite !andb_true_iff, !negb_true_iff. intros [Hc Hw].
  split; [|auto]. destruct (q c) eqn:Hq; [|reflexivity].
  rewrite (Hpq c Hq) in Hc. discriminate.
Qed.

(** The pieces of a split contain no separator. *)
Lemma split_by_free (sep : ascii -> bool) (s : string) :
  Forall (fun w => free_of sep w = true) (split_by sep s).
Proof.
  induction s as [|c s IH]; simpl.
  - repeat constructor.
  - destruct (sep c) eqn:Hc.
    + constructor; [reflexivity|assumption].
    + destruct (split_by sep s) as [|w ws].
      * repeat constructor. simpl. now rewrite Hc.
      * inversion IH; subst. constructor; [|assumption].
        simpl. now rewrite Hc.
Qed.

Lemma split_by_whole (sep : ascii -> bool) (w : string) :
  free_of sep w = true -> split_by sep w = [w].
Proof.
  induction w as [|c w IH]; simpl; [reflexivity|].
  rewrite andb_true_iff, negb_true_iff. intros [Hc Hw].
  now rewrite Hc, (IH Hw).
Qed.

Lemma split_by_app (sep : ascii -> bool) (w s : string) (c : ascii) :
  free_of sep w = true -> sep c = true ->
  split_by sep (w ++ String c s) = w :: split_by sep s.
Proof.
  intros Hw Hc. induction w as [|d w IH]; simpl.
  - now rewrite Hc.
  - simpl in Hw. rewrite andb_true_iff, negb_true_iff in Hw.
    destruct Hw as [Hd Hw]. now rewrite Hd, (IH Hw).
Qed.

(** Joining with single spaces and cutting at single spaces are inverse on
    a list, not empty, of words without space. *)
Lemma split_sp_join (l : list string) :
  l <> [] ->
  Forall (fun w => free_of (Ascii.eqb " ") w = true) l ->
  split_sp (join " " l) = l.
Proof.
  unfold split_sp, join. induction l as [|x [|y l] IH]; intros Hne Hall.
  - contradiction.
  - inversion Hall; subst. simpl. now apply split_by_whole.
  - inversion Hall; subst.
    change (String.concat " " (x :: y :: l))
      with (x ++ String " " (String.concat " " (y :: l))).
    rewrite split_by_app by auto. f_equal. apply IH; [discriminate|assumption].
Qed.

(** The words of [split()] contain no space. *)
Lemma split_ws_free (s : string) :
  Forall (fun w => free_of (Ascii.eqb " ") w = true) (split_ws s).
Proof.
  unfold split_ws. apply Forall_forall. intros w Hw.
  apply filter_In in Hw. destruct Hw as [Hw _].
  pose proof (split_by_free is_space s) as Hall.
  rewrite Forall_forall in Hall.
  apply (free_of_weaken is_space); [|now apply Hall].
  intros c Hc. apply Ascii.eqb_eq in Hc. now subst c.
Qed.

End Tokens.

Section Handover.

Context {rules : ChessRules} {re : Regex} {nums : Numbers}.

(** With distinct labels, the row returned under the label of an input row
    is that row advanced. *)
Lemma filter_puzzles_advanced (data : list raw_row) (themes : option string)
  (all_themes : bool) (min_rating max_rating : option number) (n : option Z)
  (log : list string) (out : list row) (r0 : raw_row) (r' : row) :
  NoDup (map idx data) ->
  filter_puzzles data themes all_themes min_rating max_rating n
  = (log, Ok out) ->
  In r' out -> In r0 data -> idx r0 = idx r' ->
  exists v, advanced_row (set_Rating v r0) = Some r'.
Proof.
  intros Hnd H Hin Hin0 Hlabel.
  destruct (filter_puzzles_Ok _ _ _ _ _ _ _ _ H) as (table & Hadv & Hcap).
  apply (cap_stage_In _ _ _ _ _ Hcap) in Hin.
  apply advance_stage_rows in Hadv; [|now apply passing_idx_NoDup].
  destruct (Forall2_In_r _ _ _ _ Hadv Hin) as (r & Hr & Hstep).
  destruct (passing_origin _ _ _ _ _ _ Hr)
    as (k & r1 & Hk & _ & Hr1 & _).
  exists (Rating r). rewrite Hr1 in Hstep.
  assert (r1 = r0) as ->; [|assumption].
  apply (NoDup_map_eq idx data); auto.
  - eapply nth_error_In; eauto.
  - apply advanced_row_key in Hstep. unfold key in Hstep.
    inversion Hstep. cbn [idx set_Rating] in *. congruence.
Qed.

End Handover.

(** X10.  The Moves field written by line 38 is cut by line 49 into the moves that
    remain: for a returned row whose input row has the moves m1, m2, ..., mk
    (k >= 2), [translate_moves] goes through m2, ..., mk and no other
    token. *)
Theorem advanced_moves_are_the_remaining_moves
  {rules : ChessRules} {re : Regex} {nums : Numbers}
  (data : list raw_row) (themes : option string) (all_themes : bool)
  (min_rating max_rating : option number) (n : option Z) (log : list string) (out : list row)
  (r0 : raw_row) (r' : row) (m1 m2 : string) (ms : list string) :
  NoDup (map idx data) ->
  filter_puzzles data themes all_themes min_rating max_rating n
  = (log, Ok out) ->
  In r' out ->
  In r0 data ->
  idx r0 = idx r' ->
  split_ws (Moves r0) = m1 :: m2 :: ms ->
  split_sp (Moves r') = m2 :: ms.
Proof.
  intros Hnd H Hin Hin0 Hlabel Hmoves.
  destruct (filter_puzzles_advanced _ _ _ _ _ _ _ _ _ _
              Hnd H Hin Hin0 Hlabel) as [v Hstep].
  unfold advanced_row in Hstep. cbn [Moves FEN set_Rating] in Hstep.
  rewrite Hmoves in Hstep.
  destruct (Board (FEN r0)) as [b|]; [|discriminate].
  destruct (from_uci m1) as [mv|]; [|discriminate].
  destruct (push b mv) as [b'|]; [|discriminate].
  inversion Hstep; subst. cbn [Moves set_Moves].
  apply (split_sp_join (m2 :: ms)); [discriminate|].
  pose proof (split_ws_free (Moves r0)) as Hfree. rewrite Hmoves in Hfree.
  now inversion Hfree.
Qed.

Lemma advanced_moves_are_the_remaining_moves_witness :
  split_sp (Moves Samples.fork_puzzle_advanced) = ["e7e5"; "g1f3"].
Proof.
  apply (advanced_moves_are_the_remaining_moves
           [Samples.fork_puzzle] (Some "fork") true (Some 1000) (Some 2000)
           (Some 10) [] [Samples.fork_puzzle_advanced] Samples.fork_puzzle
           Samples.fork_puzzle_advanced "e2e4").
  - repeat constructor. simpl. tauto.
  - vm_compute. reflexivity.
  - left. reflexivity.
  - left. reflexivity.
  - reflexivity.
  - vm_compute. reflexivity.
Defined.

(** ** What [translate_moves] returns *)

Section Translation.

Context {rules : ChessRules}.

Lemma translated_length (b : board) (tokens sans : list string) :
  translated b tokens = Some sans -> length sans = length tokens.
Proof.
  revert b sans. induction tokens as [|t tokens IH]; intros b sans; simpl.
  - intros H. now inversion H.
  - destruct (from_uci t) as [mv|]; [|discriminate].
    destruct (san b mv) as [a|]; [|discriminate].
    destruct (push b mv) as [b1|]; [|discriminate].
    destruct (translated b1 tokens) as [sans'|] eqn:E; [|discriminate].
    intros H. inversion H. simpl. f_equal. eapply IH; eauto.
Qed.

(** The loop of lines 49-53 computes [translated], appending to
    [proper_moves]; it prints nothing. *)
Lemma translate_loop (tokens acc : list string) (b : board) :
  match translated b tokens with
  | Some sans =>
      exists b', for_each translate_step tokens (acc, b)
                 = ([], Ok ((acc ++ sans)%list, b'))
  | None =>
      exists e, for_each translate_step tokens (acc, b) = ([], Raise e)
                /\ (e = InvalidMoveError \/ e = AssertionError)
  end.
Proof.
  revert acc b. induction tokens as [|t tokens IH]; intros acc b.
  - simpl. exists b. now rewrite app_nil_r.
  - cbn [translated for_each translate_step].
    destruct (from_uci t) as [mv|]; cbn [or_raise];
      [|exists InvalidMoveError; auto].
    rewrite bind_ret_l.
    destruct (san b mv) as [a|]; cbn [or_raise];
      [|exists AssertionError; auto].
    rewrite bind_ret_l.
    destruct (push b mv) as [b1|]; cbn [or_raise];
      [|exists AssertionError; auto].
    rewrite !bind_ret_l. specialize (IH (acc ++ [a])%list b1).
    destruct (translated b1 tokens) as [sans|]; cbn [option_map].
    + destruct IH as [b' ->]. exists b'. now rewrite <- app_assoc.
    + exact IH.
Qed.

(** [translate_moves] in one equation. *)
Lemma translate_moves_eq (moves position : string) :
  exists e,
    (e = InvalidMoveError \/ e = AssertionError)
    /\ translate_moves moves position
       = match Board position with
         | None => raise ValueError
         | Some b =>
             match translated b (split_sp moves) with
             | Some sans => ret (join " " sans)
             | None => raise e
             end
         end.
Proof.
  unfold translate_moves. destruct (Board position) as [b|]; cbn [or_raise].
  - rewrite bind_ret_l.
    pose proof (translate_loop (split_sp moves) [] b) as H.
    destruct (translated b (split_sp moves)) as [sans|].
    + destruct H as [b' ->]. exists InvalidMoveError. split; [auto|].
      reflexivity.
    + destruct H as (e & -> & He). exists e. split; [assumption|].
      reflexivity.
  - exists InvalidMoveError. split; [auto|reflexivity].
Qed.

(** A token [from_uci] refuses makes the loop raise, wherever it stands. *)
Lemma translated_refused (b : board) (tokens : list string) (t : string) :
  In t tokens -> from_uci t = None -> translated b tokens = None.
Proof.
  revert b. induction tokens as [|h tokens IH]; intros b; simpl; [tauto|].
  intros [->|Hin] Ht.
  - now rewrite Ht.
  - destruct (from_uci h) as [mv|]; [|reflexivity].
    destruct (san b mv) as [a|]; [|reflexivity].
    destruct (push b mv) as [b1|]; [|reflexivity].
    now rewrite (IH _ Hin Ht).
Qed.

(** An empty piece further on in the text stays in the split. *)
Lemma split_by_empty_piece (sep : ascii -> bool) (a s : string) :
  In "" (tl (split_by sep s)) -> In "" (tl (split_by sep (a ++ s))).
Proof.
  intros H. induction a as [|c a IH]; simpl; [assumption|].
  destruct (sep c).
  - simpl. destruct (split_by sep (a ++ s)); simpl in *;
      [contradiction | now right].
  - destruct (split_by sep (a ++ s)); simpl in *;
      [contradiction | assumption].
Qed.

End Translation.

(** X11.  [translate_moves] returns exactly when the library reads the position
    and accepts every token of [moves.split(' ')] on the board its
    predecessors lead to.  The text returned then holds one algebraic move
    per token, in the order of the tokens, joined by single spaces; nothing
    is printed. *)
Theorem translate_moves_returns_iff {rules : ChessRules}
  (moves position : string) (log : list string) (text : string) :
  translate_moves moves position = (log, Ok text)
  <->
  log = []
  /\ exists b sans,
       Board position = Some b
       /\ translated b (split_sp moves) = Some sans
       /\ length sans = length (split_sp moves)
       /\ text = join " " sans.
Proof.
  destruct (translate_moves_eq moves position) as (e & _ & ->).
  destruct (Board position) as [b|].
  - destruct (translated b (split_sp moves)) as [sans|] eqn:E.
    + split.
      * intros H. inversion H. split; [reflexivity|].
        exists b, sans. repeat split; try reflexivity; try assumption.
        now apply translated_length in E.
      * intros (-> & b0 & sans0 & Hb & Hs & _ & ->).
        inversion Hb; subst. rewrite E in Hs. inversion Hs; subst.
        reflexivity.
    + split; [discriminate|].
      intros (_ & b0 & sans0 & Hb & Hs & _). inversion Hb; subst.
      rewrite E in Hs. discriminate.
  - split; [discriminate|].
    intros (_ & b0 & sans0 & Hb & _). discriminate.
Qed.

(** X12.  An empty token is no move.  When the library refuses the empty string,
    [translate_moves] raises on the empty text and on any text that starts
    or ends with a space or holds two spaces in a row. *)
Theorem translate_moves_rejects_stray_spaces {rules : ChessRules}
  (moves position : string) :
  from_uci "" = None ->
  moves = ""
  \/ (exists rest, moves = " " ++ rest)
  \/ (exists start, moves = start ++ " ")
  \/ (exists start rest, moves = start ++ "  " ++ rest) ->
  exists e, translate_moves moves position = raise e.
Proof.
  intros Hempty Hshape.
  assert (Htoken : In "" (split_sp moves)).
  { unfold split_sp.
    destruct Hshape as [-> | [[rest ->] | [[start ->] | (start & rest & ->)]]].
    - now left.
    - now left.
    - assert (H : In "" (tl (split_by (Ascii.eqb " ") (start ++ " ")))).
      { apply split_by_empty_piece. simpl. now left. }
      destruct (split_by (Ascii.eqb " ") (start ++ " ")); simpl in *;
        [contradiction | now right].
    - assert (H : In "" (tl (split_by (Ascii.eqb " ")
                               (start ++ "  " ++ rest)))).
      { apply split_by_empty_piece. simpl. now left. }
      destruct (split_by (Ascii.eqb " ") (start ++ "  " ++ rest));
        simpl in *; [contradiction | now right]. }
  destruct (translate_moves_eq moves position) as (e & _ & ->).
  destruct (Board position) as [b|]; [|now exists ValueError].
  rewrite (translated_refused b _ _ Htoken Hempty). now exists e.
Qed.

Lemma translate_moves_rejects_stray_spaces_witness :
  exists e,
    translate_moves "e7e5  g1f3"
      Samples.after_e4 = raise e.
Proof.
  apply (translate_moves_rejects_stray_spaces
           "e7e5  g1f3" Samples.after_e4).
  - reflexivity.
  - right. right. right. exists "e7e5", "g1f3". reflexivity.
Defined.

(** ** What [generate_text] and [main] return *)

Section Document.

Context {rules : ChessRules} {re : Regex} {nums : Numbers}.

Lemma black_or_white_eq (position : string) (answer : bool) :
  black_or_white position answer
  = match Board position with
    | None => raise ValueError
    | Some b =>
        ret (if answer
             then if turn b then "\whitecircle" else "\blackcircle"
             else if turn b then "" else "... ")
    end.
Proof.
  unfold black_or_white. destruct (Board position) as [b|]; cbn [or_raise].
  - rewrite bind_ret_l. now destruct answer.
  - reflexivity.
Qed.

(** The first loop ends well when every position is read, and raises
    [ValueError] otherwise; it prints nothing. *)
Lemma diagram_loop (puzzles : list row) (start : Z) (text : string) :
  ((forall r, In r puzzles -> Board (FEN r) <> None) ->
   exists text', for_each diagram_step (enumerate start puzzles) text
                 = ([], Ok text'))
  /\ ((exists r, In r puzzles /\ Board (FEN r) = None) ->
      for_each diagram_step (enumerate start puzzles) text
      = ([], Raise ValueError)).
Proof.
  revert start text.
  induction puzzles as [|r puzzles IH]; intros start text.
  - split; [intros _; now exists text | intros (r & [] & _)].
  - cbn [enumerate for_each diagram_step].
    rewrite black_or_white_eq.
    destruct (Board (FEN r)) as [b|] eqn:Hb.
    + rewrite !bind_ret_l. split.
      * intros Hall. apply IH. intros x Hx. apply Hall. now right.
      * intros (x & [<-|Hx] & Hbad); [congruence|].
        apply IH. now exists x.
    + split.
      * intros Hall. exfalso. apply (Hall r); [now left|assumption].
      * intros _. reflexivity.
Qed.

(** The second loop ends well exactly when every row is printable; it
    prints nothing. *)
Lemma solution_loop (puzzles : list row) (start : Z) (text : string) :
  stdout (for_each solution_step (enumerate start puzzles) text) = []
  /\ ((exists text', result (for_each solution_step
                               (enumerate start puzzles) text) = Ok text')
      <-> forall r, In r puzzles -> printable r).
Proof.
  revert start text.
  induction puzzles as [|r puzzles IH]; intros start text.
  - split; [reflexivity|]. split; [intros _ r [] | intros _; now eexists].
  - cbn [enumerate for_each solution_step].
    rewrite black_or_white_eq.
    destruct (translate_moves_eq (Moves r) (FEN r)) as (e & _ & ->).
    destruct (Board (FEN r)) as [b|] eqn:Hb.
    + rewrite bind_ret_l.
      destruct (translated b (split_sp (Moves r))) as [sans|] eqn:Hs.
      * rewrite !bind_ret_l.
        match goal with
        | |- context [for_each solution_step _ ?t] =>
            destruct (IH (start + 1) t) as [Hout Hiff]
        end.
        split; [assumption|]. rewrite Hiff. split.
        -- intros Hall x [<-|Hx]; [now exists b, sans | auto].
        -- intros Hall x Hx. apply Hall. now right.
      * split; [reflexivity|]. split.
        -- intros [text' H]. discriminate.
        -- intros Hall. destruct (Hall r) as (b0 & sans & Hb0 & Hs0);
             [now left|]. congruence.
    + split; [reflexivity|]. split.
      * intros [text' H]. discriminate.
      * intros Hall. destruct (Hall r) as (b0 & sans & Hb0 & _);
          [now left|]. congruence.
Qed.

(** Either every position is read or some row has one that is not. *)
Lemma classic_readable (puzzles : list row) :
  (forall r, In r puzzles -> Board (FEN r) <> None)
  \/ (exists r, In r puzzles /\ Board (FEN r) = None).
Proof.
  induction puzzles as [|r puzzles [Hall | (x & Hx & Hbad)]].
  - left. intros r [].
  - destruct (Board (FEN r)) as [b|] eqn:Hb.
    + left. intros x [<-|Hx]; [congruence | auto].
    + right. exists r. split; [now left | assumption].
  - right. exists x. split; [now right | assumption].
Qed.

End Document.

(** X13.  [generate_text] prints nothing, and it returns a document exactly when,
    for every row, the library reads the position and accepts every token of
    [Moves.split(' ')]: one row that fails leaves no document at all. *)
Theorem generate_text_returns_iff
  {rules : ChessRules} {re : Regex} {nums : Numbers}
  (puzzles : list row) (themes n min_rating max_rating : value) :
  stdout (generate_text puzzles themes n min_rating max_rating) = []
  /\ ((exists text,
         result (generate_text puzzles themes n min_rating max_rating)
         = Ok text)
      <->
      (forall r, In r puzzles ->
         exists b sans,
           Board (FEN r) = Some b
           /\ translated b (split_sp (Moves r)) = Some sans)).
Proof.
  unfold generate_text.
  match goal with
  | |- context [for_each diagram_step _ ?t] =>
      destruct (diagram_loop puzzles 1 t) as [Hgood Hbad]
  end.
  destruct (classic_readable puzzles) as [Hall | Hsome].
  - destruct (Hgood Hall) as [text1 ->]. fold (ret text1).
    rewrite bind_ret_l.
    match goal with
    | |- context [for_each solution_step _ ?t] =>
        destruct (solution_loop puzzles 1 t) as [Hout Hiff];
        destruct (for_each solution_step (enumerate 1 puzzles) t)
          as [log [text2|e]]
    end; cbn [stdout result fst snd bind ret] in *; subst log.
    + split; [reflexivity|]. split.
      * intros _. apply Hiff. now eexists.
      * intros _. now eexists.
    + split; [reflexivity|]. split.
      * intros [text H]. discriminate.
      * intros Hp. apply Hiff in Hp. destruct Hp as [text H]. discriminate.
  - rewrite (Hbad Hsome). split; [reflexivity|]. split.
    + intros [text H]. discriminate.
    + intros Hp. destruct Hsome as (r & Hr & Hnone).
      destruct (Hp r Hr) as (b & sans & Hb & _). congruence.
Qed.

Section Silence.

Context {rules : ChessRules} {re : Regex} {nums : Numbers}.

Lemma generate_text_silent (puzzles : list row)
  (themes n min_rating max_rating : value) :
  stdout (generate_text puzzles themes n min_rating max_rating) = [].
Proof.
  unfold generate_text.
  match goal with
  | |- context [for_each diagram_step _ ?t] =>
      destruct (diagram_loop puzzles 1 t) as [Hgood Hbad]
  end.
  destruct (classic_readable puzzles) as [Hall | Hsome].
  - destruct (Hgood Hall) as [text1 ->]. fold (ret text1).
    rewrite bind_ret_l.
    match goal with
    | |- context [for_each solution_step _ ?t] =>
        destruct (solution_loop puzzles 1 t) as [Hout _];
        destruct (for_each solution_step (enumerate 1 puzzles) t)
          as [log [text2|e]]
    end; cbn [stdout result fst snd bind ret] in *; now subst log.
  - now rewrite (Hbad Hsome).
Qed.

End Silence.

Section Script.

Context {rules : ChessRules} {re : Regex} {nums : Numbers}.

(** [main] in terms of the two calls it makes. *)
Lemma main_eq (cfg : config) (puzzles : list raw_row) (ncols : Z) :
  main cfg puzzles ncols
  = match filter_puzzles puzzles (cfg_themes cfg)
            (truthy_bool (cfg_all_themes cfg)) (cfg_min_rating cfg)
            (cfg_max_rating cfg) (cfg_n cfg) with
    | (log, Raise e) => ((shape puzzles ncols :: log)%list, Raise e)
    | (log, Ok filtered) =>
        ((shape puzzles ncols :: log ++ [shape filtered ncols])%list,
         result (generate_text filtered (of_option VStr (cfg_themes cfg))
                   (of_option VNumber (cfg_min_rating cfg))
                   (of_option VNumber (cfg_max_rating cfg))
                   (of_option VInt (cfg_n cfg))))
    end.
Proof.
  unfold main, print. cbn [bind].
  destruct (filter_puzzles puzzles (cfg_themes cfg)
              (truthy_bool (cfg_all_themes cfg)) (cfg_min_rating cfg)
              (cfg_max_rating cfg) (cfg_n cfg)) as [log [filtered|e]];
    cbn [bind]; [|reflexivity].
  pose proof (generate_text_silent filtered
                (of_option VStr (cfg_themes cfg))
                (of_option VNumber (cfg_min_rating cfg))
                (of_option VNumber (cfg_max_rating cfg))
                (of_option VInt (cfg_n cfg))) as Hs.
  destruct (generate_text filtered (of_option VStr (cfg_themes cfg))
              (of_option VNumber (cfg_min_rating cfg))
              (of_option VNumber (cfg_max_rating cfg))
              (of_option VInt (cfg_n cfg))) as [out r].
  cbn [stdout fst result snd] in *. subst out. cbn [app].
  reflexivity.
Qed.

End Script.

(** X14.  [main] writes a document exactly when [filter_puzzles] returns and the
    library reads the position and accepts the moves of every row returned.
    A failure in either step leaves no document. *)
Theorem main_returns_iff
  {rules : ChessRules} {re : Regex} {nums : Numbers}
  (cfg : config) (puzzles : list raw_row) (ncols : Z) :
  (exists log text, main cfg puzzles ncols = (log, Ok text))
  <->
  (exists log filtered,
     filter_puzzles puzzles (cfg_themes cfg)
       (truthy_bool (cfg_all_themes cfg)) (cfg_min_rating cfg)
       (cfg_max_rating cfg) (cfg_n cfg) = (log, Ok filtered)
     /\ forall r, In r filtered ->
          exists b sans,
            Board (FEN r) = Some b
            /\ translated b (split_sp (Moves r)) = Some sans).
Proof.
  rewrite main_eq.
  destruct (filter_puzzles puzzles (cfg_themes cfg)
              (truthy_bool (cfg_all_themes cfg)) (cfg_min_rating cfg)
              (cfg_max_rating cfg) (cfg_n cfg)) as [flog [filtered|e]].
  - destruct (generate_text_returns_iff filtered
                (of_option VStr (cfg_themes cfg))
                (of_option VNumber (cfg_min_rating cfg))
                (of_option VNumber (cfg_max_rating cfg))
                (of_option VInt (cfg_n cfg)))
      as [_ Hiff].
    split.
    + intros (log & text & H). inversion H.
      exists flog, filtered. split; [reflexivity|].
      apply Hiff. now exists text.
    + intros (log & filtered' & H & Hall). inversion H; subst.
      apply Hiff in Hall. destruct Hall as [text ->]. now eexists _, _.
  - split.
    + intros (log & text & H). discriminate.
    + intros (log & filtered & H & _). discriminate.
Qed.

(** X15.  When [main] writes a document it has printed the shape of the table
    read, one diagnostic for each passing row with fewer than two moves, and
    the shape of the table returned by [filter_puzzles], in this order. *)
Theorem main_stdout
  {rules : ChessRules} {re : Regex} {nums : Numbers}
  (cfg : config) (puzzles : list raw_row) (ncols : Z) (log : list string)
  (text : string) :
  main cfg puzzles ncols = (log, Ok text) ->
  exists filtered,
    result (filter_puzzles puzzles (cfg_themes cfg)
              (truthy_bool (cfg_all_themes cfg)) (cfg_min_rating cfg)
              (cfg_max_rating cfg) (cfg_n cfg)) = Ok filtered
    /\ log
       = ([shape puzzles ncols]
          ++ map (fun r => ("Skipping row " ++ str_int (idx r + 1)
                            ++ ": Insufficient moves")%string)
               (filter (fun r => (length (split_ws (Moves r)) <? 2)%nat)
                  (passing puzzles (cfg_themes cfg)
                     (truthy_bool (cfg_all_themes cfg)) (cfg_min_rating cfg)
                     (cfg_max_rating cfg)))
          ++ [shape filtered ncols])%list.
Proof.
  rewrite main_eq.
  destruct (filter_puzzles puzzles (cfg_themes cfg)
              (truthy_bool (cfg_all_themes cfg)) (cfg_min_rating cfg)
              (cfg_max_rating cfg) (cfg_n cfg)) as [flog [filtered|e]] eqn:Hf;
    [|discriminate].
  intros H. inversion H; subst. exists filtered. split; [reflexivity|].
  destruct (filter_puzzles_Ok _ _ _ _ _ _ _ _ Hf) as (table & Hadv & _).
  destruct (advance_loop_Ok _ _ _ _ Hadv) as [-> _]. reflexivity.
Qed.

Lemma main_stdout_witness :
  exists filtered,
    result (filter_puzzles
              [Samples.easy_puzzle; Samples.short_puzzle] None true
              (Some 1000) None (Some 10)) = Ok filtered
    /\ ["(2, 10)"; "Skipping row 2: Insufficient moves"; "(1, 10)"]
       = ([shape [Samples.easy_puzzle; Samples.short_puzzle] 10]
          ++ map (fun r => ("Skipping row " ++ str_int (idx r + 1)
                            ++ ": Insufficient moves")%string)
               (filter (fun r => (length (split_ws (Moves r)) <? 2)%nat)
                  (passing [Samples.easy_puzzle; Samples.short_puzzle] None
                     true (Some 1000) None))
          ++ [shape filtered 10])%list.
Proof.
  eapply (main_stdout
            (mkConfig (nums := Integers.numbers) (Some 1000) None None (Some true) (Some 10))
            [Samples.easy_puzzle; Samples.short_puzzle] 10).
  vm_compute. reflexivity.
Defined.

(** X16.  Without [n] in the configuration [main] writes no document, whatever the
    table: it prints the shape of the table read and raises. *)
Theorem main_without_cap_raises
  {rules : ChessRules} {re : Regex} {nums : Numbers}
  (cfg : config) (puzzles : list raw_row) (ncols : Z) :
  cfg_n cfg = None ->
  exists log e,
    main cfg puzzles ncols = ((shape puzzles ncols :: log)%list, Raise e).
Proof.
  intros Hn. rewrite main_eq, Hn.
  destruct (filter_puzzles puzzles (cfg_themes cfg)
              (truthy_bool (cfg_all_themes cfg)) (cfg_min_rating cfg)
              (cfg_max_rating cfg) None) as [flog [filtered|e]] eqn:Hf.
  - exfalso. destruct (filter_puzzles_Ok _ _ _ _ _ _ _ _ Hf)
      as (table & _ & Hcap). discriminate.
  - now exists flog, e.
Qed.

Lemma main_without_cap_raises_witness :
  exists log e,
    main
      (mkConfig (nums := Integers.numbers) (Some 1000) (Some 2000) (Some "fork") (Some true) None)
      [Samples.fork_puzzle] 10
    = ((shape [Samples.fork_puzzle] 10 :: log)%list, Raise e).
Proof.
  apply (main_without_cap_raises
           (mkConfig (nums := Integers.numbers) (Some 1000) (Some 2000) (Some "fork") (Some true) None)
           [Samples.fork_puzzle] 10).
  reflexivity.
Defined.

(** X17.  With [n = 0] a run that ends well writes the book without puzzles: the
    preamble, the heading and the empty list of solutions. *)
Theorem main_cap_zero_writes_empty_book
  {rules : ChessRules} {re : Regex} {nums : Numbers}
  (cfg : config) (puzzles : list raw_row) (ncols : Z) (log : list string)
  (text : string) :
  cfg_n cfg = Some 0 ->
  main cfg puzzles ncols = (log, Ok text) ->
  text = empty_book (of_option VStr (cfg_themes cfg))
           (of_option VNumber (cfg_min_rating cfg))
           (of_option VNumber (cfg_max_rating cfg)) (VInt 0).
Proof.
  intros Hn. rewrite main_eq, Hn.
  destruct (filter_puzzles puzzles (cfg_themes cfg)
              (truthy_bool (cfg_all_themes cfg)) (cfg_min_rating cfg)
              (cfg_max_rating cfg) (Some 0)) as [flog [filtered|e]] eqn:Hf;
    [|discriminate].
  destruct (filter_puzzles_Ok _ _ _ _ _ _ _ _ Hf) as (table & _ & Hcap).
  rewrite cap_stage_firstn in Hcap by lia. inversion Hcap; subst.
  intros H. inversion H. reflexivity.
Qed.

Lemma main_cap_zero_writes_empty_book_witness :
  match result (main
                  (mkConfig (nums := Integers.numbers) (Some 1000) None (Some "fork") None (Some 0))
                  [Samples.fork_puzzle] 10) with
  | Ok text => text
  | Raise _ => ""
  end
  = empty_book (VStr "fork") (VNumber 1000) VNone (VInt 0).
Proof.
  apply (main_cap_zero_writes_empty_book
           (mkConfig (nums := Integers.numbers) (Some 1000) None (Some "fork") None (Some 0))
           [Samples.fork_puzzle] 10 ["(1, 10)"; "(0, 10)"]).
  - reflexivity.
  - vm_compute. reflexivity.
Defined.
